(** * Vision AI Renamer: the queue, the caption pipeline and the archive names

    A shallow embedding of [src/App.tsx].  The component keeps three pieces
    of React state that matter here: [settings], [uploadedFiles] and
    [isProcessing].  Every handler of the component becomes a function on an
    explicit application state; what the browser decides (the random number
    behind an id, the object URL of a preview, the answer of the captioning
    service, whether the zip library succeeds) is carried by the event that
    triggers the handler.

    Modelling conventions.
    - A JavaScript string is a sequence of code units.  The model keeps the
      code units below 256 (Rocq's [string]); on that range [toLowerCase],
      [trim] and the class [\s] are written out completely.
    - A JavaScript number that holds an integer is the [Z] it holds, with
      the rounding of the doubles written out: sums are rounded to 53
      significant bits and [toString] prints the shortest digits that read
      back, in exponent form from 22 digits on.
    - The zip object is kept as the ordered list of the
      [zip.file(name, data)] writes made on it; [archiveOf] gives the
      entries the library keeps for them, one per name. *)

From Stdlib Require Import String Ascii List ZArith Lia Bool Arith.
From Stdlib Require Import DecimalString DecimalPos DecimalZ.
Import ListNotations.

Local Open Scope string_scope.

(** ** Strings as the engine sees them *)

Module JsString.

(** Code units matched by [\s] and removed by [trim] (below 256):
    TAB, LF, VT, FF, CR, SPACE and NBSP. *)
Definition isWhiteSpace (c : ascii) : bool :=
  let n := nat_of_ascii c in
  ((n =? 9) || (n =? 10) || (n =? 11) || (n =? 12) || (n =? 13)
   || (n =? 32) || (n =? 160))%nat.

(** Lower-case mapping of one code unit: A-Z and the Latin-1 capitals
    (U+00C0..U+00DE without the multiplication sign) move up by 32. *)
Definition lowerChar (c : ascii) : ascii :=
  let n := nat_of_ascii c in
  if ((65 <=? n) && (n <=? 90))%nat then ascii_of_nat (n + 32)
  else if ((192 <=? n) && (n <=? 222) && negb (n =? 215))%nat
       then ascii_of_nat (n + 32)
  else c.

Fixpoint toLowerCase (s : string) : string :=
  match s with
  | EmptyString => EmptyString
  | String c r => String (lowerChar c) (toLowerCase r)
  end.

Fixpoint all_chars (p : ascii -> bool) (s : string) : bool :=
  match s with
  | EmptyString => true
  | String c r => p c && all_chars p r
  end.

Fixpoint trimStart (s : string) : string :=
  match s with
  | EmptyString => EmptyString
  | String c r => if isWhiteSpace c then trimStart r else s
  end.

Fixpoint trimEnd (s : string) : string :=
  match s with
  | EmptyString => EmptyString
  | String c r =>
      if isWhiteSpace c && all_chars isWhiteSpace r then EmptyString
      else String c (trimEnd r)
  end.

Definition trim (s : string) : string := trimEnd (trimStart s).

(** [s.replace(/\s+/g, by)]: every maximal run of white space becomes one
    copy of [by].  [inRun] tells that the previous code unit was white space
    and has already been replaced. *)
Fixpoint replaceRuns (by_ : string) (inRun : bool) (s : string) : string :=
  match s with
  | EmptyString => EmptyString
  | String c r =>
      if isWhiteSpace c
      then if inRun then replaceRuns by_ true r
           else by_ ++ replaceRuns by_ true r
      else String c (replaceRuns by_ false r)
  end.

Definition replaceWhitespaceRuns (by_ s : string) : string :=
  replaceRuns by_ false s.

(** The class [a-z0-9-]. *)
Definition inClass (c : ascii) : bool :=
  let n := nat_of_ascii c in
  (((97 <=? n) && (n <=? 122)) || ((48 <=? n) && (n <=? 57)) || (n =? 45))%nat.

(** [s.replace(/[^a-z0-9-]/g, '')]. *)
Fixpoint removeOutsideClass (s : string) : string :=
  match s with
  | EmptyString => EmptyString
  | String c r =>
      if inClass c then String c (removeOutsideClass r)
      else removeOutsideClass r
  end.

Fixpoint take (n : nat) (s : string) : string :=
  match n, s with
  | O, _ => EmptyString
  | S _, EmptyString => EmptyString
  | S k, String c r => String c (take k r)
  end.

Fixpoint drop (n : nat) (s : string) : string :=
  match n, s with
  | O, _ => s
  | S _, EmptyString => EmptyString
  | S k, String _ r => drop k r
  end.

(** An index argument is clamped into [0, length]. *)
Definition clampIndex (len : nat) (i : Z) : nat :=
  Nat.min (Z.to_nat i) len.

(** [s.substring(start, end)]: both ends clamped, swapped when out of
    order. *)
Definition substring2 (s : string) (start end_ : Z) : string :=
  let a := clampIndex (String.length s) start in
  let b := clampIndex (String.length s) end_ in
  let lo := Nat.min a b in
  let hi := Nat.max a b in
  take (hi - lo) (drop lo s).

(** [s.substring(start)]: the end defaults to the length. *)
Definition substring1 (s : string) (start : Z) : string :=
  substring2 s start (Z.of_nat (String.length s)).

(** [s.substr(start, length)] for a non-negative [start]. *)
Definition substr (s : string) (start len : nat) : string :=
  take len (drop start s).

(** [s.lastIndexOf(c)] for a one-character search string: the index of the
    last occurrence, or -1. *)
Fixpoint lastIndexFrom (c : ascii) (s : string) (i : Z) (found : Z) : Z :=
  match s with
  | EmptyString => found
  | String d r =>
      lastIndexFrom c r (i + 1) (if Ascii.eqb d c then i else found)
  end.

Definition lastIndexOf (s : string) (c : ascii) : Z :=
  lastIndexFrom c s 0 (-1).

(** [s.startsWith(p)]. *)
Fixpoint startsWith (s p : string) {struct p} : bool :=
  match p, s with
  | EmptyString, _ => true
  | String _ _, EmptyString => false
  | String a p', String b s' => Ascii.eqb a b && startsWith s' p'
  end.

(** The filler of [padStart]: [n] code units read cyclically from [pad];
    [cur] is what is left of the current copy. *)
Fixpoint filler (n : nat) (pad cur : string) : string :=
  match n with
  | O => EmptyString
  | S k =>
      match cur with
      | String c r => String c (filler k pad r)
      | EmptyString =>
          match pad with
          | String c r => String c (filler k pad r)
          | EmptyString => EmptyString
          end
      end
  end.

(** [s.padStart(targetLength, pad)]. *)
Definition padStart (s : string) (targetLength : Z) (pad : string) : string :=
  let len := Z.of_nat (String.length s) in
  if (targetLength <=? len)%Z then s
  else filler (Z.to_nat (targetLength - len)) pad pad ++ s.

(** The decimal digits of an integer, a minus sign in front of a negative
    one. *)
Definition decimal (n : Z) : string :=
  NilZero.string_of_int (Z.to_int n).

(** *** Numbers

    A Number that holds an integer is kept as that integer; [infinity] and
    its opposite stand for the two infinities.  Up to [twoTo53] every
    integer is a Number; beyond, only those with 53 significant bits. *)
Definition twoTo53 : Z := 2 ^ 53.

Definition infinity : Z := 2 ^ 1024.

(** Rounding of a magnitude to 53 significant bits, to nearest and ties to
    even; what would need an exponent above 1023 becomes [infinity]. *)
Definition roundMagnitude (m : Z) : Z :=
  if (m <=? twoTo53)%Z then m
  else
    let e := (Z.log2 m - 52)%Z in
    let q := Z.shiftr m e in
    let r := (m - Z.shiftl q e)%Z in
    let half := Z.shiftl 1 (e - 1) in
    let q' := if (half <? r)%Z || ((r =? half)%Z && Z.odd q)
              then (q + 1)%Z else q in
    let v := Z.shiftl q' e in
    if (infinity <=? v)%Z then infinity else v.

(** The Number value for an integer. *)
Definition numberOf (x : Z) : Z := (Z.sgn x * roundMagnitude (Z.abs x))%Z.

(** [a + b] for a Number [a] and a finite Number [b]. *)
Definition Number_add (a b : Z) : Z :=
  if (Z.abs a =? infinity)%Z then a else numberOf (a + b).

(** The [k]-digit integers [s] for which [s * 10^(n-k)] has the Number
    value [x], the one closest to [x] if there are two. *)
Definition candidate (x k n : Z) : option (Z * Z) :=
  let p := (10 ^ (n - k))%Z in
  let lo := (x / p)%Z in
  let hi := (lo + 1)%Z in
  let ok s := ((10 ^ (k - 1) <=? s) && (s <? 10 ^ k)
               && (numberOf (s * p) =? x))%Z in
  match ok lo, ok hi with
  | true, true => Some (if (x - lo * p <=? hi * p - x)%Z then lo else hi, n)
  | true, false => Some (lo, n)
  | false, true => Some (hi, n)
  | false, false => None
  end.

Definition closer (x k : Z) (a b : option (Z * Z)) : option (Z * Z) :=
  match a, b with
  | Some (s, n), Some (s', n') =>
      if (Z.abs (s * 10 ^ (n - k) - x) <=? Z.abs (s' * 10 ^ (n' - k) - x))%Z
      then a else b
  | Some _, None => a
  | None, _ => b
  end.

(** The digits [s], their count [k] and the decimal exponent [n] of
    [Number::toString]: [k] as small as possible.  [n0] is the number of
    digits of [x]; seventeen digits always suffice. *)
Fixpoint shortest (fuel : nat) (x k n0 : Z) : Z * Z * Z :=
  match fuel with
  | O => (x, n0, n0)
  | S f =>
      match closer x k (candidate x k n0) (candidate x k (n0 + 1)) with
      | Some (s, n) => (s, k, n)
      | None => shortest f x (k + 1) n0
      end
  end.

Fixpoint zeros (n : nat) : string :=
  match n with
  | O => EmptyString
  | S k => String "0" (zeros k)
  end.

(** The digits followed by zeros up to 21 digits, the exponent form from
    22 digits on. *)
Definition render (skn : Z * Z * Z) : string :=
  let '(s, k, n) := skn in
  let digits := decimal s in
  if (n <=? 21)%Z then digits ++ zeros (Z.to_nat (n - k))
  else
    match digits with
    | EmptyString => EmptyString
    | String d rest =>
        String d (match rest with
                  | EmptyString => EmptyString
                  | String _ _ => String "." rest
                  end)
        ++ "e+" ++ decimal (n - 1)
    end.

(** [d.toString()] of a Number that holds an integer.  Up to [twoTo53] the
    shortest digits that read back as [d] are the digits of [d]. *)
Definition toString (d : Z) : string :=
  let m := Z.abs d in
  if (m <=? twoTo53)%Z then decimal d
  else
    (if (d <? 0)%Z then "-" else EmptyString)
    ++ (if (infinity <=? m)%Z then "Infinity"
        else render (shortest 17 m 1 (Z.of_nat (String.length (decimal m))))).

End JsString.

Import JsString.

(** ** Data model *)

(** The [status] field of a queue entry. *)
Inductive Status : Type := idle | processing | done | error.

Definition Status_eqb (a b : Status) : bool :=
  match a, b with
  | idle, idle | processing, processing | done, done | error, error => true
  | _, _ => false
  end.

(** A browser [File]: its name, its declared media type and its bytes. *)
Record File : Type := mkFile {
  name : string;
  type : string;
  bytes : string
}.

(** One element of [uploadedFiles]. *)
Record QueueItem : Type := mkItem {
  file : File;
  id : string;
  preview : string;
  aiTitle : option string;
  status : Status
}.

(** [RenameSettings] of [types.ts]. *)
Record RenameSettings : Type := mkSettings {
  startNumber : Z;
  zeroPad : Z
}.

(** The state of the component.  [inFlight] holds the ids of the calls of
    [processFileWithAi] that are suspended at an [await]. *)
Record App : Type := mkApp {
  settings : RenameSettings;
  uploadedFiles : list QueueItem;
  isProcessing : bool;
  inFlight : list string
}.

(** [useState] initial values. *)
Definition initialApp : App :=
  {| settings := {| startNumber := 1; zeroPad := 2 |};
     uploadedFiles := [];
     isProcessing := false;
     inFlight := [] |}.

Definition setUploadedFiles (f : list QueueItem -> list QueueItem) (s : App) : App :=
  {| settings := settings s;
     uploadedFiles := f (uploadedFiles s);
     isProcessing := isProcessing s;
     inFlight := inFlight s |}.

Definition setIsProcessing (b : bool) (s : App) : App :=
  {| settings := settings s;
     uploadedFiles := uploadedFiles s;
     isProcessing := b;
     inFlight := inFlight s |}.

Definition setSettings (r : RenameSettings) (s : App) : App :=
  {| settings := r;
     uploadedFiles := uploadedFiles s;
     isProcessing := isProcessing s;
     inFlight := inFlight s |}.

Definition setInFlight (l : list string) (s : App) : App :=
  {| settings := settings s;
     uploadedFiles := uploadedFiles s;
     isProcessing := isProcessing s;
     inFlight := l |}.

(** ** The ingestion queue *)

(** What the browser supplies for one file handed to [addFilesToQueue]:
    the file, the text of [Math.random().toString(36)] and the object URL. *)
Record Picked : Type := mkPicked {
  pickedFile : File;
  random36 : string;
  objectURL : string
}.

(** The element built by the [files.map] of [addFilesToQueue]. *)
Definition newItem (p : Picked) : QueueItem :=
  {| file := pickedFile p;
     id := substr (random36 p) 2 9;
     preview := objectURL p;
     aiTitle := None;
     status := idle |}.

(** [arr.slice(a, b)] for indices that are not negative. *)
Definition slice {A : Type} (l : list A) (a b : nat) : list A :=
  firstn (b - a) (skipn a l).

Definition addFilesToQueue (files : list Picked) (s : App) : App :=
  let newFiles := map newItem files in
  setUploadedFiles (fun prev => slice (prev ++ newFiles) 0 200) s.

Definition clearFiles (s : App) : App :=
  setUploadedFiles (fun _ => []) s.

(** ** Captioning *)

Definition hasId (i : string) (f : QueueItem) : bool := String.eqb (id f) i.

Definition isImage (f : File) : bool := startsWith (type f) "image/".

Definition withStatus (st : Status) (f : QueueItem) : QueueItem :=
  {| file := file f; id := id f; preview := preview f;
     aiTitle := aiTitle f; status := st |}.

Definition withTitle (t : string) (st : Status) (f : QueueItem) : QueueItem :=
  {| file := file f; id := id f; preview := preview f;
     aiTitle := Some t; status := st |}.

(** [prev.map(f => f.id === id ? upd(f) : f)]. *)
Definition mapWhereId (i : string) (upd : QueueItem -> QueueItem)
  (prev : list QueueItem) : list QueueItem :=
  map (fun f => if hasId i f then upd f else f) prev.

(** [processFileWithAi] up to its first [await]: the lookup, the guard and
    the switch to [processing]; the call is then in flight.  The lookup
    reads the queue of the render that created the closure and the switch
    goes through the updater; the effect calls the function right after a
    render, so both see the same queue here. *)
Definition processFileWithAi (i : string) (s : App) : App :=
  match find (hasId i) (uploadedFiles s) with
  | None => s
  | Some item =>
      if negb (isImage (file item)) then s
      else setInFlight (inFlight s ++ [i])
             (setUploadedFiles (mapWhereId i (withStatus processing)) s)
  end.

Definition placeholder : string := "high-fidelity-image-description".

(** [response.text || placeholder]: an absent or empty text is falsy. *)
Definition rawTextOf (text : option string) : string :=
  match text with
  | None => placeholder
  | Some EmptyString => placeholder
  | Some t => t
  end.

Definition cleanTitle (rawText : string) : string :=
  substring2
    (removeOutsideClass
       (replaceWhitespaceRuns "-" (toLowerCase (trim rawText))))
    0 190.

Fixpoint removeOne (i : string) (l : list string) : list string :=
  match l with
  | [] => []
  | x :: r => if String.eqb x i then r else x :: removeOne i r
  end.

Definition isInFlight (i : string) (s : App) : bool :=
  existsb (String.eqb i) (inFlight s).

(** The rest of the [try] block, run when the remote call has resolved with
    [text] as the [text] field of the response. *)
Definition processFileWithAi_resolved (i : string) (text : option string)
  (s : App) : App :=
  if isInFlight i s then
    setInFlight (removeOne i (inFlight s))
      (setUploadedFiles
         (mapWhereId i (withTitle (cleanTitle (rawTextOf text)) done)) s)
  else s.

(** The [catch] block, run when an awaited promise has rejected. *)
Definition processFileWithAi_rejected (i : string) (s : App) : App :=
  if isInFlight i s then
    setInFlight (removeOne i (inFlight s))
      (setUploadedFiles (mapWhereId i (withStatus error)) s)
  else s.

(** The effect on [uploadedFiles]: caption the first idle entry. *)
Definition useEffect (s : App) : App :=
  match find (fun f => Status_eqb (status f) idle) (uploadedFiles s) with
  | Some idleFile => processFileWithAi (id idleFile) s
  | None => s
  end.

(** ** Renaming and packing *)

(** What the user gets to see from [downloadRenamedFiles]. *)
Inductive Notice : Type :=
| Alert (msg : string)
| Download (filename : string) (zip : list (string * File)).

(** [zip.file(name, data)], as a write: the zip object is kept as the list
    of the writes made on it, in order.  What the library keeps of them is
    [archiveOf]. *)
Definition zip_file (entryName : string) (data : File)
  (zip : list (string * File)) : list (string * File) :=
  zip ++ [(entryName, data)].

(** [arr.forEach((item, index) => ...)] threading the object the callback
    writes to. *)
Fixpoint forEach {A Acc : Type} (f : A -> nat -> Acc -> Acc) (l : list A)
  (index : nat) (acc : Acc) : Acc :=
  match l with
  | [] => acc
  | item :: r => forEach f r (S index) (f item index acc)
  end.

(** A template literal prints an absent title as [undefined]. *)
Definition templateOf (t : option string) : string :=
  match t with
  | Some x => x
  | None => "undefined"
  end.

Definition extOf (item : QueueItem) : string :=
  substring1 (name (file item)) (lastIndexOf (name (file item)) ".").

Definition numOf (r : RenameSettings) (index : nat) : string :=
  padStart (toString (Number_add (startNumber r) (Z.of_nat index)))
    (zeroPad r) "0".

Definition newName (r : RenameSettings) (item : QueueItem) (index : nat) : string :=
  templateOf (aiTitle item) ++ "-" ++ numOf r index ++ extOf item.

Definition finishedOf (s : App) : list QueueItem :=
  filter (fun f => Status_eqb (status f) done) (uploadedFiles s).

(** The zip object after the [forEach] of [downloadRenamedFiles]. *)
Definition zipOf (r : RenameSettings) (finished : list QueueItem)
  : list (string * File) :=
  forEach (fun item index zip => zip_file (newName r item index) (file item) zip)
    finished 0 [].

(** [downloadRenamedFiles]; [zipOk] tells whether the zip library built the
    archive or threw. *)
Definition downloadRenamedFiles (zipOk : bool) (s : App) : App * Notice :=
  let finished := finishedOf s in
  match finished with
  | [] => (s, Alert "No files processed by AI yet.")
  | _ :: _ =>
      let s1 := setIsProcessing true s in
      let notice :=
        if zipOk then Download "vision-ai-renamed.zip" (zipOf (settings s1) finished)
        else Alert "Error creating ZIP." in
      (setIsProcessing false s1, notice)
  end.

(** What the zip library does with one write: it adds an entry, or, when
    there is an entry of that name, gives that entry the new data. *)
Fixpoint addOrUpdate (entryName : string) (data : File)
  (archive : list (string * File)) : list (string * File) :=
  match archive with
  | [] => [(entryName, data)]
  | (n, d) :: rest =>
      if String.eqb n entryName then (n, data) :: rest
      else (n, d) :: addOrUpdate entryName data rest
  end.

(** The entries of the archive generated from the writes. *)
Definition archiveOf (zip : list (string * File)) : list (string * File) :=
  fold_left (fun archive w => addOrUpdate (fst w) (snd w) archive) zip [].

(** ** The component as a transition system *)

Inductive Event : Type :=
| FilesChosen (files : list Picked)
| WipeAll
| EffectRuns
| CallResolved (i : string) (text : option string)
| CallRejected (i : string)
| DownloadClicked (zipOk : bool)
| StartNumberTyped (parsed : option Z)
| PaddingSelected (value : Z).

(** [parseInt(e.target.value) || 1]: [parsed] is the integer that was read,
    [None] when none was; its Number value is kept, and not-a-number and
    zero are falsy. *)
Definition startNumberOf (parsed : option Z) : Z :=
  match parsed with
  | Some n => if (numberOf n =? 0)%Z then 1%Z else numberOf n
  | None => 1%Z
  end.

Definition step (s : App) (ev : Event) : App :=
  match ev with
  | FilesChosen files => addFilesToQueue files s
  | WipeAll => clearFiles s
  | EffectRuns => useEffect s
  | CallResolved i text => processFileWithAi_resolved i text s
  | CallRejected i => processFileWithAi_rejected i s
  | DownloadClicked zipOk => fst (downloadRenamedFiles zipOk s)
  | StartNumberTyped parsed =>
      setSettings {| startNumber := startNumberOf parsed;
                     zeroPad := zeroPad (settings s) |} s
  | PaddingSelected value =>
      setSettings {| startNumber := startNumber (settings s);
                     zeroPad := value |} s
  end.

Definition run (evs : list Event) : App := fold_left step evs initialApp.

(** The ids generated by the calls of [addFilesToQueue] of a run, in order. *)
Definition idsOfEvent (ev : Event) : list string :=
  match ev with
  | FilesChosen files => map (fun p => id (newItem p)) files
  | _ => []
  end.

Definition generatedIds (evs : list Event) : list string :=
  flat_map idsOfEvent evs.

(** Every entry ever built by [addFilesToQueue] in a run. *)
Definition createdItems (evs : list Event) : list QueueItem :=
  flat_map (fun ev => match ev with
                      | FilesChosen files => map newItem files
                      | _ => []
                      end) evs.

(** The order on [Status] the data model asks for. *)
Definition forward (a b : Status) : bool :=
  match a, b with
  | idle, idle | processing, processing | done, done | error, error => true
  | idle, processing => true
  | processing, done | processing, error => true
  | _, _ => false
  end.

(** The sanitising chain in the words of the specification: lower-case,
    white-space runs to one hyphen, strip outside the class, cut at 190.
    Unlike [cleanTitle] it does not trim. *)
Definition spec_sanitize (text : string) : string :=
  take 190
    (removeOutsideClass (replaceWhitespaceRuns "-" (toLowerCase text))).

(** ** Invariants of a run *)

(** What every entry of a reachable queue satisfies: a [done] entry has a
    title, and a title is a sanitised one. *)
Definition SoundItem (it : QueueItem) : Prop :=
  (status it = done -> aiTitle it <> None)
  /\ (forall t, aiTitle it = Some t ->
        all_chars inClass t = true /\ String.length t <= 190).

(** What holds of a reachable state as long as the ids generated so far,
    [used], are pairwise distinct. *)
Record Consistent (used : list string) (s : App) : Prop := mkConsistent {
  ids_distinct : NoDup (map id (uploadedFiles s));
  ids_used : incl (map id (uploadedFiles s)) used;
  inFlight_used : incl (inFlight s) used;
  inFlight_distinct : NoDup (inFlight s);
  inFlight_processing :
    forall it, In it (uploadedFiles s) -> In (id it) (inFlight s) ->
               status it = processing;
  title_only_done :
    forall it, In it (uploadedFiles s) -> aiTitle it = None \/ status it = done;
  other_types_idle :
    forall it, In it (uploadedFiles s) -> isImage (file it) = false ->
               status it = idle
}.

(** One transition seen from the queue: an entry that is still at its
    position is the same entry, and its status has not moved backwards. *)
Definition ForwardStep (s s' : App) : Prop :=
  forall k it it',
    nth_error (uploadedFiles s) k = Some it ->
    nth_error (uploadedFiles s') k = Some it' ->
    file it' = file it /\ id it' = id it
    /\ forward (status it) (status it') = true.

(** ** Sample sessions *)

Definition jpegFile : File :=
  {| name := "IMG_0042.jpg"; type := "image/jpeg"; bytes := "jpeg-bytes" |}.

Definition pngFile : File :=
  {| name := "scan"; type := "image/png"; bytes := "png-bytes" |}.

Definition textFile : File :=
  {| name := "notes.txt"; type := "text/plain"; bytes := "hello" |}.

(** One JPEG is dropped, captioned as in the scenario of the
    specification, and the two settings are changed. *)
Definition scenarioRun (f : File) (random url : string) : list Event :=
  [ FilesChosen [ {| pickedFile := f; random36 := random; objectURL := url |} ];
    EffectRuns;
    CallResolved (substr random 2 9) (Some "blue-sky-over-mountains");
    StartNumberTyped (Some 5%Z);
    PaddingSelected 3%Z ].

Definition captionedRun : list Event :=
  scenarioRun jpegFile "0.4fzyo82mvyr" "blob:1".

(** Two random numbers whose base-36 texts differ only after the eleventh
    character: the second file is dropped once the first is [done]. *)
Definition collidingRun : list Event :=
  [ FilesChosen [ {| pickedFile := jpegFile; random36 := "0.k3v9x1q0am7";
                     objectURL := "blob:1" |} ];
    EffectRuns;
    CallResolved "k3v9x1q0a" (Some "sky");
    FilesChosen [ {| pickedFile := pngFile; random36 := "0.k3v9x1q0azz";
                     objectURL := "blob:2" |} ] ].

(** The same collision between an image and a text file dropped together. *)
Definition maskedRun : list Event :=
  [ FilesChosen [ {| pickedFile := jpegFile; random36 := "0.k3v9x1q0am7";
                     objectURL := "blob:1" |};
                  {| pickedFile := textFile; random36 := "0.k3v9x1q0azz";
                     objectURL := "blob:2" |} ];
    EffectRuns;
    CallResolved "k3v9x1q0a" (Some "sky") ].

(** A text file dropped before an image, the ids being distinct. *)
Definition mixedRun : list Event :=
  [ FilesChosen [ {| pickedFile := textFile; random36 := "0.9d2hq7w1xk4";
                     objectURL := "blob:1" |};
                  {| pickedFile := jpegFile; random36 := "0.k3v9x1q0am7";
                     objectURL := "blob:2" |} ];
    EffectRuns ].

(** A [done] entry whose file name has no dot, and more files than the
    queue takes. *)
Definition dotlessItem : QueueItem :=
  {| file := pngFile; id := "k3v9x1q0a"; preview := "blob:2";
     aiTitle := Some "sky"; status := done |}.

Definition manyFiles : list Picked :=
  repeat {| pickedFile := jpegFile; random36 := "0.4fzyo82mvyr";
            objectURL := "blob:1" |} 201.

(** A JPEG that has just been dropped; then the same with its call started
    and not yet answered. *)
Definition droppedRun : list Event :=
  [ FilesChosen [ {| pickedFile := jpegFile; random36 := "0.4fzyo82mvyr";
                     objectURL := "blob:1" |} ] ].

Definition pendingRun : list Event := droppedRun ++ [EffectRuns].

(** Three images dropped together and captioned [a], [b] and [a-]; then
    the start number is set to -1 and the padding to 1. *)
Definition clashRun : list Event :=
  [ FilesChosen [ {| pickedFile := jpegFile; random36 := "0.aaaaaaaaaa1";
                     objectURL := "blob:1" |};
                  {| pickedFile := jpegFile; random36 := "0.bbbbbbbbbb2";
                     objectURL := "blob:2" |};
                  {| pickedFile := jpegFile; random36 := "0.ccccccccc3";
                     objectURL := "blob:3" |} ];
    EffectRuns; EffectRuns; EffectRuns;
    CallResolved "aaaaaaaaa" (Some "a");
    CallResolved "bbbbbbbbb" (Some "b");
    CallResolved "ccccccccc" (Some "a-");
    StartNumberTyped (Some (-1)%Z);
    PaddingSelected 1%Z ].

(** Two images dropped together and both captioned [sky]. *)
Definition pairRun : list Event :=
  [ FilesChosen [ {| pickedFile := jpegFile; random36 := "0.aaaaaaaaaa1";
                     objectURL := "blob:1" |};
                  {| pickedFile := jpegFile; random36 := "0.bbbbbbbbbb2";
                     objectURL := "blob:2" |} ];
    EffectRuns; EffectRuns;
    CallResolved "aaaaaaaaa" (Some "sky");
    CallResolved "bbbbbbbbb" (Some "sky") ].

(** ** The rest of the component *)

(** The decimal digits. *)
Definition isDigit (c : ascii) : bool :=
  let n := nat_of_ascii c in ((48 <=? n) && (n <=? 57))%nat.

(** [s.split(sep)] for a one-character separator: the pieces between the
    separators, one piece (the empty one) for the empty string. *)
Fixpoint split (sep : ascii) (s : string) : list string :=
  match s with
  | EmptyString => [EmptyString]
  | String c r =>
      if Ascii.eqb c sep then EmptyString :: split sep r
      else match split sep r with
           | [] => [String c EmptyString]
           | piece :: pieces => String c piece :: pieces
           end
  end.

(** [pieces.join(sep)]. *)
Fixpoint join (sep : string) (pieces : list string) : string :=
  match pieces with
  | [] => EmptyString
  | [piece] => piece
  | piece :: rest => piece ++ sep ++ join sep rest
  end.

(** What the [onload] handler of [fileToBase64] resolves with:
    [result.split(',')[1]], with [None] for [undefined]. *)
Definition fileToBase64_onload (result : string) : option string :=
  nth_error (split "," result) 1.

(** The counters of the render. *)
Definition totalFiles (s : App) : nat := List.length (uploadedFiles s).

Definition processedFiles (s : App) : nat := List.length (finishedOf s).

(** The [disabled] attribute of the download button. *)
Definition downloadDisabled (s : App) : bool :=
  isProcessing s || (processedFiles s =? 0)%nat.

(** A JSX child prints an absent value as nothing. *)
Definition jsxText (t : option string) : string :=
  match t with
  | Some x => x
  | None => EmptyString
  end.

(** The name the list shows for the entry at position [index] of the whole
    queue; the placeholder bars are shown while the entry is not [done]. *)
Definition previewLabel (r : RenameSettings) (item : QueueItem) (index : nat)
  : option string :=
  if Status_eqb (status item) done
  then Some (jsxText (aiTitle item) ++ "-" ++ numOf r index ++ extOf item)
  else None.

(** How many [done] entries stand before position [k] of the queue. *)
Definition doneBefore (s : App) (k : nat) : nat :=
  List.length
    (filter (fun f => Status_eqb (status f) done) (firstn k (uploadedFiles s))).

(** The entries that are not idle come first. *)
Definition StartedInOrder (s : App) : Prop :=
  forall j k a b,
    j < k ->
    nth_error (uploadedFiles s) j = Some a ->
    nth_error (uploadedFiles s) k = Some b ->
    status b <> idle -> status a <> idle.

(** A JPEG is dropped and its call started; the queue is wiped while the
    call is in flight and a text file is dropped afterwards. *)
Definition wipedRun : list Event :=
  pendingRun
  ++ WipeAll
     :: [ FilesChosen [ {| pickedFile := textFile; random36 := "0.9d2hq7w1xk4";
                           objectURL := "blob:2" |} ] ].

(** Three images dropped together and answered: the first call fails. *)
Definition threeRun : list Event :=
  [ FilesChosen [ {| pickedFile := jpegFile; random36 := "0.aaaaaaaaaa1";
                     objectURL := "blob:1" |};
                  {| pickedFile := pngFile; random36 := "0.bbbbbbbbbb2";
                     objectURL := "blob:2" |};
                  {| pickedFile := jpegFile; random36 := "0.ccccccccc3";
                     objectURL := "blob:3" |} ];
    EffectRuns; EffectRuns; EffectRuns;
    CallRejected "aaaaaaaaa";
    CallResolved "bbbbbbbbb" (Some "Green Hills");
    CallResolved "ccccccccc" (Some "red car") ].

(** * Properties *)

(** ** Strings *)

Section StringFacts.

Lemma length_append (a b : string) :
  String.length (a ++ b) = String.length a + String.length b.
Proof.
  induction a as [|c a IH]; simpl; [reflexivity | now rewrite IH].
Qed.

Lemma append_assoc (a b c : string) : (a ++ b) ++ c = a ++ (b ++ c).
Proof.
  induction a as [|x a IH]; simpl; [reflexivity | now rewrite IH].
Qed.

Lemma all_chars_append (p : ascii -> bool) (a b : string) :
  all_chars p (a ++ b) = all_chars p a && all_chars p b.
Proof.
  induction a as [|c a IH]; simpl; [reflexivity|].
  now rewrite IH, andb_assoc.
Qed.

Lemma all_chars_take (p : ascii -> bool) (n : nat) (s : string) :
  all_chars p s = true -> all_chars p (take n s) = true.
Proof.
  revert s; induction n as [|n IH]; intros [|c r]; simpl; auto.
  intros H; apply andb_true_iff in H as [Hc Hr].
  now rewrite Hc, IH.
Qed.

Lemma all_chars_weaken (p q : ascii -> bool) (s : string) :
  (forall c, p c = true -> q c = true) ->
  all_chars p s = true -> all_chars q s = true.
Proof.
  intros Hpq; induction s as [|c r IH]; simpl; auto.
  intros H; apply andb_true_iff in H as [Hc Hr].
  now rewrite (Hpq _ Hc), IH.
Qed.

Lemma length_take (n : nat) (s : string) :
  String.length (take n s) = Nat.min n (String.length s).
Proof.
  revert s; induction n as [|n IH]; intros [|c r]; simpl; auto.
Qed.

Lemma take_all (n : nat) (s : string) :
  String.length s <= n -> take n s = s.
Proof.
  revert s; induction n as [|n IH]; intros [|c r]; simpl; auto; try lia.
  intros H; f_equal; apply IH; lia.
Qed.

Lemma take_min (n : nat) (s : string) :
  take (Nat.min n (String.length s)) s = take n s.
Proof.
  revert s; induction n as [|n IH]; intros [|c r]; simpl; auto.
  now rewrite IH.
Qed.

Lemma substring2_prefix (s : string) (n : nat) :
  substring2 s 0 (Z.of_nat n) = take n s.
Proof.
  unfold substring2, clampIndex.
  rewrite Nat2Z.id. simpl Z.to_nat.
  rewrite Nat.min_0_l, Nat.max_0_l, Nat.sub_0_r. simpl drop.
  apply take_min.
Qed.

Lemma substring1_all (s : string) (start : Z) :
  (start <= 0)%Z -> substring1 s start = s.
Proof.
  intros H. unfold substring1, substring2, clampIndex.
  replace (Z.to_nat start) with 0 by lia.
  rewrite Nat2Z.id, Nat.min_id, Nat.min_0_l, Nat.max_0_l, Nat.sub_0_r.
  simpl drop. apply take_all. lia.
Qed.

Lemma removeOutsideClass_inClass (s : string) :
  all_chars inClass (removeOutsideClass s) = true.
Proof.
  induction s as [|c r IH]; simpl; [reflexivity|].
  destruct (inClass c) eqn:E; simpl; [now rewrite E|assumption].
Qed.

(** A code unit of the class is not white space. *)
Lemma inClass_not_space (c : ascii) :
  inClass c = true -> negb (isWhiteSpace c) = true.
Proof.
  destruct c as [[] [] [] [] [] [] [] []]; vm_compute; congruence.
Qed.

(** [cleanTitle] is the chain of the specification run on the trimmed
    text. *)
Lemma cleanTitle_spec_sanitize (rawText : string) :
  cleanTitle rawText = spec_sanitize (trim rawText).
Proof.
  unfold cleanTitle, spec_sanitize.
  change 190%Z with (Z.of_nat 190).
  apply substring2_prefix.
Qed.

Lemma cleanTitle_inClass (rawText : string) :
  all_chars inClass (cleanTitle rawText) = true.
Proof.
  rewrite cleanTitle_spec_sanitize. unfold spec_sanitize.
  apply all_chars_take, removeOutsideClass_inClass.
Qed.

Lemma cleanTitle_length (rawText : string) :
  String.length (cleanTitle rawText) <= 190.
Proof.
  rewrite cleanTitle_spec_sanitize. unfold spec_sanitize.
  rewrite length_take. apply Nat.le_min_l.
Qed.

(** The filler made of one repeated code unit. *)
Lemma filler_single (c : ascii) (n : nat) (cur : string) :
  all_chars (Ascii.eqb c) cur = true ->
  all_chars (Ascii.eqb c) (filler n (String c EmptyString) cur) = true
  /\ String.length (filler n (String c EmptyString) cur) = n.
Proof.
  revert cur; induction n as [|n IH]; intros cur Hcur; simpl; [auto|].
  destruct cur as [|d r]; simpl.
  - rewrite Ascii.eqb_refl. destruct (IH EmptyString eq_refl) as [H1 H2].
    now rewrite H1, H2.
  - simpl in Hcur. apply andb_true_iff in Hcur as [Hd Hr].
    destruct (IH r Hr) as [H1 H2]. now rewrite Hd, H1, H2.
Qed.

(** [padStart] with a one-character pad only puts copies of that character
    in front; the result is as long as the larger of the two lengths. *)
Lemma padStart_single (s : string) (targetLength : Z) (c : ascii) :
  exists pad,
    padStart s targetLength (String c EmptyString) = pad ++ s
    /\ all_chars (Ascii.eqb c) pad = true
    /\ String.length (pad ++ s)
       = Nat.max (Z.to_nat targetLength) (String.length s).
Proof.
  unfold padStart.
  destruct (Z.leb_spec targetLength (Z.of_nat (String.length s))) as [H|H].
  - exists EmptyString. simpl. repeat split. lia.
  - destruct (filler_single c
                (Z.to_nat (targetLength - Z.of_nat (String.length s)))
                (String c EmptyString)) as [H1 H2].
    { simpl. now rewrite Ascii.eqb_refl. }
    eexists; repeat split; [exact H1|].
    rewrite length_append, H2. lia.
Qed.

Lemma lastIndexFrom_absent (c : ascii) (s : string) (i found : Z) :
  all_chars (fun d => negb (Ascii.eqb d c)) s = true ->
  lastIndexFrom c s i found = found.
Proof.
  revert i found; induction s as [|d r IH]; intros i found; simpl; [auto|].
  intros H; apply andb_true_iff in H as [Hd Hr].
  apply negb_true_iff in Hd. rewrite Hd. now apply IH.
Qed.

(** The decimal text of an integer reads back as that integer. *)
Lemma decimal_reads_back (n : Z) :
  option_map Z.of_int (NilZero.int_of_string (decimal n)) = Some n.
Proof.
  unfold decimal. rewrite NilZero.isi.
  - simpl. now rewrite DecimalZ.of_to.
  - destruct n; simpl; try discriminate.
    intros [= H]. now apply DecimalPos.Unsigned.to_uint_nonnil in H.
  - destruct n; simpl; try discriminate.
    intros [= H]. now apply DecimalPos.Unsigned.to_uint_nonnil in H.
Qed.

(** Up to [twoTo53] nothing is rounded and the digits are the decimal
    ones. *)
Lemma numberOf_safe (x : Z) :
  (- twoTo53 <= x <= twoTo53)%Z -> numberOf x = x.
Proof.
  intros H. unfold numberOf, roundMagnitude.
  rewrite (proj2 (Z.leb_le (Z.abs x) twoTo53)) by lia.
  destruct x; reflexivity.
Qed.

Lemma toString_safe (d : Z) :
  (- twoTo53 <= d <= twoTo53)%Z -> toString d = decimal d.
Proof.
  intros H. unfold toString.
  now rewrite (proj2 (Z.leb_le (Z.abs d) twoTo53)) by lia.
Qed.

Lemma Number_add_safe (a b : Z) :
  (- twoTo53 <= a <= twoTo53)%Z -> (- twoTo53 <= a + b <= twoTo53)%Z ->
  Number_add a b = (a + b)%Z.
Proof.
  intros Ha Hab. unfold Number_add.
  assert (Hinf : (twoTo53 < infinity)%Z) by (vm_compute; reflexivity).
  rewrite (proj2 (Z.eqb_neq (Z.abs a) infinity)) by lia.
  now apply numberOf_safe.
Qed.

End StringFacts.

(** ** Lists and the queue updates *)

Section QueueFacts.

Lemma In_firstn {A : Type} (n : nat) (l : list A) (x : A) :
  In x (firstn n l) -> In x l.
Proof.
  revert l; induction n as [|n IH]; intros [|a l]; simpl; try tauto.
  intros [H|H]; auto.
Qed.

Lemma NoDup_firstn {A : Type} (n : nat) (l : list A) :
  NoDup l -> NoDup (firstn n l).
Proof.
  revert l; induction n as [|n IH]; intros [|a l] H; simpl;
    try constructor.
  - inversion H; subst. intros Hin. now apply In_firstn in Hin.
  - inversion H; subst. now apply IH.
Qed.

Lemma slice_from_0 {A : Type} (l : list A) (n : nat) :
  slice l 0 n = firstn n l.
Proof. unfold slice. now rewrite Nat.sub_0_r. Qed.

Lemma NoDup_map_eq {A B : Type} (f : A -> B) (l : list A) (x y : A) :
  NoDup (map f l) -> In x l -> In y l -> f x = f y -> x = y.
Proof.
  induction l as [|a l IH]; simpl; [tauto|].
  intros Hnd Hx Hy Hf. inversion Hnd as [|? ? Hnotin Hnd']; subst.
  destruct Hx as [->|Hx], Hy as [->|Hy]; auto.
  - exfalso. apply Hnotin. rewrite Hf. now apply in_map.
  - exfalso. apply Hnotin. rewrite <- Hf. now apply in_map.
Qed.

Lemma hasId_true (i : string) (f : QueueItem) :
  hasId i f = true <-> id f = i.
Proof. unfold hasId. apply String.eqb_eq. Qed.

Lemma hasId_false (i : string) (f : QueueItem) :
  hasId i f = false <-> id f <> i.
Proof. unfold hasId. apply String.eqb_neq. Qed.

Lemma mapWhereId_ids (i : string) (upd : QueueItem -> QueueItem)
  (q : list QueueItem) :
  (forall f, id (upd f) = id f) ->
  map id (mapWhereId i upd q) = map id q.
Proof.
  intros Hupd. unfold mapWhereId. rewrite map_map.
  apply map_ext. intros f. now destruct (hasId i f).
Qed.

Lemma mapWhereId_length (i : string) (upd : QueueItem -> QueueItem)
  (q : list QueueItem) :
  List.length (mapWhereId i upd q) = List.length q.
Proof. apply length_map. Qed.

Lemma mapWhereId_nth (i : string) (upd : QueueItem -> QueueItem)
  (q : list QueueItem) (k : nat) :
  nth_error (mapWhereId i upd q) k
  = option_map (fun f => if hasId i f then upd f else f) (nth_error q k).
Proof. apply nth_error_map. Qed.

Lemma mapWhereId_In (i : string) (upd : QueueItem -> QueueItem)
  (q : list QueueItem) (it' : QueueItem) :
  In it' (mapWhereId i upd q) ->
  exists it, In it q
             /\ ((id it = i /\ it' = upd it) \/ (id it <> i /\ it' = it)).
Proof.
  unfold mapWhereId. rewrite in_map_iff. intros [it [E Hin]].
  exists it. split; [assumption|].
  destruct (hasId i it) eqn:Hi.
  - left. now apply hasId_true in Hi.
  - right. now apply hasId_false in Hi.
Qed.

Lemma isInFlight_In (i : string) (s : App) :
  isInFlight i s = true <-> In i (inFlight s).
Proof.
  unfold isInFlight. rewrite existsb_exists. split.
  - intros [x [Hin E]]. apply String.eqb_eq in E. now subst.
  - intros H. exists i. split; [assumption | apply String.eqb_refl].
Qed.

Lemma removeOne_In (i x : string) (l : list string) :
  In x (removeOne i l) -> In x l.
Proof.
  induction l as [|a l IH]; simpl; [tauto|].
  destruct (String.eqb a i); simpl; tauto.
Qed.

Lemma removeOne_NoDup (i : string) (l : list string) :
  NoDup l -> NoDup (removeOne i l) /\ ~ In i (removeOne i l).
Proof.
  induction l as [|a l IH]; simpl; intros H.
  - split; [constructor | tauto].
  - inversion H as [|? ? Hnotin Hnd]; subst.
    destruct (String.eqb_spec a i) as [->|Hne].
    + split; assumption.
    + destruct (IH Hnd) as [H1 H2]. split.
      * constructor; [|assumption].
        intros Hin. apply Hnotin. now apply removeOne_In in Hin.
      * simpl. intros [E|Hin]; [now apply Hne | now apply H2].
Qed.

(** The zip object after the loop: the writes come after what was there,
    one per element and in the order of the list. *)
Lemma forEach_zip (r : RenameSettings) (l : list QueueItem) (index : nat)
  (zip : list (string * File)) :
  forEach (fun item index zip => zip_file (newName r item index) (file item) zip)
    l index zip
  = (zip ++ map (fun p => (newName r (snd p) (fst p), file (snd p)))
              (combine (seq index (List.length l)) l))%list.
Proof.
  revert index zip; induction l as [|item l IH]; intros index zip; simpl.
  - now rewrite app_nil_r.
  - rewrite IH. unfold zip_file. now rewrite <- app_assoc.
Qed.

Lemma zipOf_eq (r : RenameSettings) (finished : list QueueItem) :
  zipOf r finished
  = map (fun p => (newName r (snd p) (fst p), file (snd p)))
      (combine (seq 0 (List.length finished)) finished).
Proof. unfold zipOf. now rewrite forEach_zip. Qed.

Lemma combine_seq_nth {A : Type} (l : list A) (start k : nat) (x : A) :
  nth_error l k = Some x ->
  nth_error (combine (seq start (List.length l)) l) k = Some (start + k, x).
Proof.
  revert start k; induction l as [|a l IH]; intros start [|k]; simpl;
    try discriminate.
  - intros [= ->]. now rewrite Nat.add_0_r.
  - intros H. rewrite (IH (S start) k H). f_equal. f_equal. lia.
Qed.

Lemma zipOf_length (r : RenameSettings) (finished : list QueueItem) :
  List.length (zipOf r finished) = List.length finished.
Proof.
  rewrite zipOf_eq, length_map, length_combine, length_seq.
  apply Nat.min_id.
Qed.

Lemma zipOf_nth (r : RenameSettings) (finished : list QueueItem)
  (index : nat) (item : QueueItem) :
  nth_error finished index = Some item ->
  nth_error (zipOf r finished) index
  = Some (newName r item index, file item).
Proof.
  intros H. rewrite zipOf_eq, nth_error_map.
  now rewrite (combine_seq_nth finished 0 index item H).
Qed.

Lemma zipOf_data (r : RenameSettings) (finished : list QueueItem) :
  map snd (zipOf r finished) = map file finished.
Proof.
  rewrite zipOf_eq, map_map. simpl.
  generalize 0 as start.
  induction finished as [|a l IH]; intros start; simpl; [reflexivity|].
  now rewrite IH.
Qed.

End QueueFacts.

(** ** Runs *)

Section RunFacts.

Lemma run_snoc (evs : list Event) (ev : Event) :
  run (evs ++ [ev]) = step (run evs) ev.
Proof. unfold run. now rewrite fold_left_app. Qed.

Lemma generatedIds_snoc (evs : list Event) (ev : Event) :
  generatedIds (evs ++ [ev]) = (generatedIds evs ++ idsOfEvent ev)%list.
Proof.
  unfold generatedIds. rewrite flat_map_app. simpl. now rewrite app_nil_r.
Qed.

Lemma createdItems_ids (evs : list Event) :
  map id (createdItems evs) = generatedIds evs.
Proof.
  unfold createdItems, generatedIds.
  induction evs as [|ev evs IH]; simpl; [reflexivity|].
  rewrite map_app, IH. f_equal.
  destruct ev; simpl; try reflexivity. now rewrite map_map.
Qed.

Lemma download_keeps (zipOk : bool) (s : App) :
  uploadedFiles (fst (downloadRenamedFiles zipOk s)) = uploadedFiles s
  /\ inFlight (fst (downloadRenamedFiles zipOk s)) = inFlight s
  /\ settings (fst (downloadRenamedFiles zipOk s)) = settings s.
Proof.
  unfold downloadRenamedFiles. destruct (finishedOf s); simpl; auto.
Qed.

(** The shapes the queue can take after one event. *)
Lemma step_queue (s : App) (ev : Event) :
  uploadedFiles (step s ev) = uploadedFiles s
  \/ (exists files, ev = FilesChosen files
        /\ uploadedFiles (step s ev)
           = firstn 200 (uploadedFiles s ++ map newItem files))
  \/ uploadedFiles (step s ev) = []
  \/ (exists i, uploadedFiles (step s ev)
                = mapWhereId i (withStatus processing) (uploadedFiles s))
  \/ (exists i, uploadedFiles (step s ev)
                = mapWhereId i (withStatus error) (uploadedFiles s))
  \/ (exists i raw, uploadedFiles (step s ev)
                = mapWhereId i (withTitle (cleanTitle raw) done)
                    (uploadedFiles s)).
Proof.
  destruct ev as [files| | |i text|i|zipOk|parsed|value]; cbn [step].
  - right; left. exists files. split; [reflexivity|].
    unfold addFilesToQueue, setUploadedFiles; cbn [uploadedFiles].
    apply slice_from_0.
  - right; right; left. reflexivity.
  - unfold useEffect.
    destruct (find _ (uploadedFiles s)) as [idleFile|]; [|now left].
    unfold processFileWithAi.
    destruct (find _ (uploadedFiles s)) as [item|]; [|now left].
    destruct (negb (isImage (file item))); [now left|].
    right; right; right; left. now exists (id idleFile).
  - unfold processFileWithAi_resolved.
    destruct (isInFlight i s); [|now left].
    do 5 right. now exists i, (rawTextOf text).
  - unfold processFileWithAi_rejected.
    destruct (isInFlight i s); [|now left].
    do 4 right; left. now exists i.
  - left. apply download_keeps.
  - now left.
  - now left.
Qed.

(** A property of entries that the constructors and the three updates keep
    is kept by every event. *)
Lemma step_keeps (P : QueueItem -> Prop) (s : App) (ev : Event) :
  (forall files p, ev = FilesChosen files -> In p files -> P (newItem p)) ->
  (forall f, P f -> P (withStatus processing f)) ->
  (forall f, P f -> P (withStatus error f)) ->
  (forall f raw, P f -> P (withTitle (cleanTitle raw) done f)) ->
  (forall it, In it (uploadedFiles s) -> P it) ->
  forall it, In it (uploadedFiles (step s ev)) -> P it.
Proof.
  intros Hnew Hproc Herr Hdone Hs it.
  destruct (step_queue s ev)
    as [E|[[files [Eev E]]|[E|[[i E]|[[i E]|[i [raw E]]]]]]]; rewrite E.
  - apply Hs.
  - intros Hin. apply In_firstn, in_app_or in Hin as [Hin|Hin]; [now apply Hs|].
    apply in_map_iff in Hin as [p [<- Hp]]. now apply (Hnew files).
  - intros [].
  - intros Hin.
    apply mapWhereId_In in Hin as [it0 [Hin [[_ ->]|[_ ->]]]]; auto.
  - intros Hin.
    apply mapWhereId_In in Hin as [it0 [Hin [[_ ->]|[_ ->]]]]; auto.
  - intros Hin.
    apply mapWhereId_In in Hin as [it0 [Hin [[_ ->]|[_ ->]]]]; auto.
Qed.

Lemma run_keeps (P : QueueItem -> Prop) :
  (forall p, P (newItem p)) ->
  (forall f, P f -> P (withStatus processing f)) ->
  (forall f, P f -> P (withStatus error f)) ->
  (forall f raw, P f -> P (withTitle (cleanTitle raw) done f)) ->
  forall evs it, In it (uploadedFiles (run evs)) -> P it.
Proof.
  intros Hnew Hproc Herr Hdone evs.
  induction evs as [|ev evs IH] using rev_ind.
  - intros it [].
  - rewrite run_snoc. apply step_keeps; auto.
Qed.

Lemma run_sound (evs : list Event) (it : QueueItem) :
  In it (uploadedFiles (run evs)) -> SoundItem it.
Proof.
  apply run_keeps; unfold SoundItem; simpl.
  - intros p. split; [discriminate | discriminate].
  - intros f [_ H]. split; [discriminate | exact H].
  - intros f [_ H]. split; [discriminate | exact H].
  - intros f raw _. split; [discriminate|].
    intros t [= <-]. split; [apply cleanTitle_inClass | apply cleanTitle_length].
Qed.

(** The queue never holds more than 200 entries. *)
Lemma run_length (evs : list Event) :
  List.length (uploadedFiles (run evs)) <= 200.
Proof.
  induction evs as [|ev evs IH] using rev_ind; [simpl; lia|].
  rewrite run_snoc.
  destruct (step_queue (run evs) ev)
    as [E|[[files [Eev E]]|[E|[[i E]|[[i E]|[i [raw E]]]]]]]; rewrite E;
    rewrite ?mapWhereId_length; try assumption.
  - apply firstn_le_length.
  - simpl; lia.
Qed.

(** Every entry of the queue was built by some call of [addFilesToQueue]
    of the run, and still has the id, the file and the preview it was built
    with. *)
Lemma run_created (evs : list Event) (it : QueueItem) :
  In it (uploadedFiles (run evs)) ->
  exists c, In c (createdItems evs)
            /\ id c = id it /\ file c = file it /\ preview c = preview it.
Proof.
  revert it. induction evs as [|ev evs IH] using rev_ind.
  - intros it [].
  - rewrite run_snoc.
    assert (Hmono : forall c, In c (createdItems evs) ->
                              In c (createdItems (evs ++ [ev]))).
    { intros c Hc. unfold createdItems. rewrite flat_map_app.
      apply in_or_app. now left. }
    apply step_keeps.
    + intros files p -> Hp. exists (newItem p). split; [|auto].
      unfold createdItems. rewrite flat_map_app. apply in_or_app. right.
      simpl. rewrite app_nil_r. now apply in_map.
    + intros f [c [Hc H]]. exists c. split; [exact Hc | exact H].
    + intros f [c [Hc H]]. exists c. split; [exact Hc | exact H].
    + intros f raw [c [Hc H]]. exists c. split; [exact Hc | exact H].
    + intros it Hit. destruct (IH it Hit) as [c [Hc H]].
      exists c. split; [now apply Hmono | exact H].
Qed.

End RunFacts.

(** ** Runs in which the generated ids are pairwise distinct *)

Section DistinctIds.

Lemma NoDup_app_disjoint {A : Type} (l1 l2 : list A) (x : A) :
  NoDup (l1 ++ l2) -> In x l1 -> In x l2 -> False.
Proof.
  induction l1 as [|a l1 IH]; simpl; [tauto|].
  intros H [->|Hin] H2; inversion H as [|? ? Hnotin Hnd]; subst.
  - apply Hnotin, in_or_app. now right.
  - now apply IH.
Qed.

Lemma NoDup_app_left {A : Type} (l1 l2 : list A) :
  NoDup (l1 ++ l2) -> NoDup l1.
Proof.
  induction l1 as [|a l1 IH]; simpl; intros H; [constructor|].
  inversion H as [|? ? Hnotin Hnd]; subst. constructor; [|now apply IH].
  intros Hin. apply Hnotin, in_or_app. now left.
Qed.

Lemma forward_refl (st : Status) : forward st st = true.
Proof. now destruct st. Qed.

Lemma ForwardStep_same (s s' : App) :
  uploadedFiles s' = uploadedFiles s -> ForwardStep s s'.
Proof.
  intros E k it it' H H'. rewrite E, H in H'. injection H' as <-.
  repeat split. apply forward_refl.
Qed.

Lemma Consistent_same (used : list string) (s s' : App) :
  uploadedFiles s' = uploadedFiles s -> inFlight s' = inFlight s ->
  Consistent used s -> Consistent used s'.
Proof.
  intros Eq Ef [H1 H2 H3 H4 H5 H6 H7].
  constructor; rewrite ?Eq, ?Ef; assumption.
Qed.

Lemma Consistent_more (used more : list string) (s : App) :
  Consistent used s -> Consistent (used ++ more) s.
Proof.
  intros [H1 H2 H3 H4 H5 H6 H7].
  constructor; try assumption; now apply incl_appl.
Qed.

Lemma Consistent_initial : Consistent [] initialApp.
Proof.
  constructor; simpl; try (intros ? []); try apply incl_refl; constructor.
Qed.

(** *** [addFilesToQueue] *)

Lemma addFilesToQueue_queue (files : list Picked) (s : App) :
  uploadedFiles (addFilesToQueue files s)
  = firstn 200 (uploadedFiles s ++ map newItem files).
Proof.
  unfold addFilesToQueue, setUploadedFiles; cbn [uploadedFiles].
  apply slice_from_0.
Qed.

Lemma addFilesToQueue_inFlight (files : list Picked) (s : App) :
  inFlight (addFilesToQueue files s) = inFlight s.
Proof. reflexivity. Qed.

Lemma addFilesToQueue_forward (files : list Picked) (s : App) :
  ForwardStep s (addFilesToQueue files s).
Proof.
  intros k it it' H H'. rewrite addFilesToQueue_queue in H'.
  rewrite nth_error_firstn in H'. destruct (Nat.ltb k 200); [|discriminate].
  rewrite nth_error_app1 in H'.
  - rewrite H in H'. injection H' as <-. repeat split. apply forward_refl.
  - apply nth_error_Some. now rewrite H.
Qed.

Lemma addFilesToQueue_consistent (used : list string) (files : list Picked)
  (s : App) :
  Consistent used s ->
  NoDup (used ++ map (fun p => id (newItem p)) files) ->
  Consistent (used ++ map (fun p => id (newItem p)) files)
    (addFilesToQueue files s).
Proof.
  intros [H1 H2 H3 H4 H5 H6 H7] Hnd.
  assert (Hids : map id (map newItem files)
                 = map (fun p => id (newItem p)) files) by apply map_map.
  assert (Hin : forall it, In it (uploadedFiles (addFilesToQueue files s)) ->
                In it (uploadedFiles s)
                \/ exists p, In p files /\ it = newItem p).
  { intros it Hit. rewrite addFilesToQueue_queue in Hit.
    apply In_firstn, in_app_or in Hit as [Hit|Hit]; [now left|].
    right. apply in_map_iff in Hit as [p [<- Hp]]. now exists p. }
  constructor; rewrite ?addFilesToQueue_inFlight.
  - rewrite addFilesToQueue_queue, <- firstn_map, map_app, Hids.
    apply NoDup_firstn, NoDup_app.
    + assumption.
    + now apply NoDup_app_remove_l in Hnd.
    + intros a Ha Hb. apply (NoDup_app_disjoint _ _ a Hnd); auto.
  - rewrite addFilesToQueue_queue, <- firstn_map, map_app, Hids.
    intros a Ha. apply In_firstn, in_app_or in Ha as [Ha|Ha];
      apply in_or_app; auto.
  - now apply incl_appl.
  - assumption.
  - intros it Hit Hfl. destruct (Hin it Hit) as [Hold|[p [Hp ->]]]; [auto|].
    exfalso. apply (NoDup_app_disjoint _ _ (id (newItem p)) Hnd); auto.
    apply in_map_iff. now exists p.
  - intros it Hit. destruct (Hin it Hit) as [Hold|[p [Hp ->]]]; [auto|].
    now left.
  - intros it Hit Himg. destruct (Hin it Hit) as [Hold|[p [Hp ->]]]; auto.
Qed.

(** *** [processFileWithAi] as the effect calls it *)

Lemma useEffect_cases (s : App) :
  useEffect s = s
  \/ exists idleFile,
       In idleFile (uploadedFiles s) /\ status idleFile = idle
       /\ (exists item, find (hasId (id idleFile)) (uploadedFiles s) = Some item
                        /\ isImage (file item) = true)
       /\ useEffect s
          = setInFlight (inFlight s ++ [id idleFile])
              (setUploadedFiles
                 (mapWhereId (id idleFile) (withStatus processing)) s).
Proof.
  unfold useEffect.
  destruct (find _ (uploadedFiles s)) as [idleFile|] eqn:Hidle; [|now left].
  apply find_some in Hidle as [Hin Hst].
  unfold processFileWithAi.
  destruct (find (hasId (id idleFile)) (uploadedFiles s)) as [item|] eqn:Hitem;
    [|now left].
  destruct (isImage (file item)) eqn:Himg; simpl; [|now left].
  right. exists idleFile. repeat split; auto.
  - now destruct (status idleFile).
  - now exists item.
Qed.

Lemma useEffect_forward (used : list string) (s : App) :
  Consistent used s -> ForwardStep s (useEffect s).
Proof.
  intros HC.
  destruct (useEffect_cases s) as [->|[idleFile [Hin [Hst [_ ->]]]]].
  - now apply ForwardStep_same.
  - intros k it it' H H'. simpl in H'.
    rewrite mapWhereId_nth, H in H'. simpl in H'. injection H' as <-.
    destruct (hasId (id idleFile) it) eqn:Hid; simpl.
    + apply hasId_true in Hid.
      assert (it = idleFile) as ->.
      { apply (NoDup_map_eq id (uploadedFiles s)); auto.
        - apply (ids_distinct _ _ HC).
        - now apply nth_error_In in H. }
      rewrite Hst. auto.
    + repeat split. apply forward_refl.
Qed.

Lemma useEffect_consistent (used : list string) (s : App) :
  Consistent used s -> Consistent used (useEffect s).
Proof.
  intros HC.
  destruct (useEffect_cases s)
    as [->|[idleFile [Hin [Hst [[item [Hfind Himg]] ->]]]]]; [assumption|].
  destruct HC as [H1 H2 H3 H4 H5 H6 H7].
  assert (Hsame : forall it, In it (uploadedFiles s) ->
                             id it = id idleFile -> it = idleFile).
  { intros it Hit E. now apply (NoDup_map_eq id (uploadedFiles s)). }
  assert (item = idleFile) as ->.
  { apply find_some in Hfind as [Hitem Hid]. apply hasId_true in Hid. auto. }
  assert (Hfresh : ~ In (id idleFile) (inFlight s)).
  { intros Hfl. specialize (H5 _ Hin Hfl). congruence. }
  constructor; simpl.
  - rewrite mapWhereId_ids; auto.
  - rewrite mapWhereId_ids; auto.
  - intros a Ha. apply in_app_or in Ha as [Ha|[<-|[]]]; [auto|].
    apply H2. now apply in_map.
  - apply NoDup_app; [assumption | repeat constructor; intros [] |].
    intros a Ha [<-|[]]. now apply Hfresh.
  - intros it' Hit' Hfl.
    apply mapWhereId_In in Hit' as [it [Hit [[E ->]|[E ->]]]]; [reflexivity|].
    apply H5; [assumption|].
    apply in_app_or in Hfl as [Hfl|[Hfl|[]]]; [assumption | congruence].
  - intros it' Hit'.
    apply mapWhereId_In in Hit' as [it [Hit [[E ->]|[E ->]]]]; [|auto].
    simpl. rewrite (Hsame it Hit E).
    destruct (H6 _ Hin) as [Hnone|Hdone]; [now left | congruence].
  - intros it' Hit' Hty.
    apply mapWhereId_In in Hit' as [it [Hit [[E ->]|[E ->]]]]; [|auto].
    simpl in Hty. rewrite (Hsame it Hit E) in Hty. congruence.
Qed.

(** *** The end of a call *)

Lemma resolved_forward (used : list string) (i : string)
  (text : option string) (s : App) :
  Consistent used s -> ForwardStep s (processFileWithAi_resolved i text s).
Proof.
  intros HC. unfold processFileWithAi_resolved.
  destruct (isInFlight i s) eqn:Hfl; [|now apply ForwardStep_same].
  apply isInFlight_In in Hfl.
  intros k it it' H H'. simpl in H'.
  rewrite mapWhereId_nth, H in H'. simpl in H'. injection H' as <-.
  destruct (hasId i it) eqn:Hid; simpl.
  - apply hasId_true in Hid. subst i.
    rewrite (inFlight_processing _ _ HC it); auto.
    now apply nth_error_In in H.
  - repeat split. apply forward_refl.
Qed.

Lemma rejected_forward (used : list string) (i : string) (s : App) :
  Consistent used s -> ForwardStep s (processFileWithAi_rejected i s).
Proof.
  intros HC. unfold processFileWithAi_rejected.
  destruct (isInFlight i s) eqn:Hfl; [|now apply ForwardStep_same].
  apply isInFlight_In in Hfl.
  intros k it it' H H'. simpl in H'.
  rewrite mapWhereId_nth, H in H'. simpl in H'. injection H' as <-.
  destruct (hasId i it) eqn:Hid; simpl.
  - apply hasId_true in Hid. subst i.
    rewrite (inFlight_processing _ _ HC it); auto.
    now apply nth_error_In in H.
  - repeat split. apply forward_refl.
Qed.

(** Once the call on [i] has ended, the entries with another id are as
    they were and no call on [i] is left in flight. *)
Lemma ended_consistent (used : list string) (i : string)
  (upd : QueueItem -> QueueItem) (s : App) :
  (forall f, id (upd f) = id f) ->
  (forall f, file (upd f) = file f) ->
  (forall f, status f = processing -> aiTitle f = None ->
             aiTitle (upd f) = None \/ status (upd f) = done) ->
  Consistent used s -> In i (inFlight s) ->
  Consistent used
    (setInFlight (removeOne i (inFlight s))
       (setUploadedFiles (mapWhereId i upd) s)).
Proof.
  intros Hid Hfile Htitle [H1 H2 H3 H4 H5 H6 H7] Hfl.
  destruct (removeOne_NoDup i _ H4) as [Hnd Hgone].
  constructor; simpl.
  - rewrite mapWhereId_ids; auto.
  - rewrite mapWhereId_ids; auto.
  - intros a Ha. apply H3. now apply removeOne_In in Ha.
  - assumption.
  - intros it' Hit' Hin.
    apply mapWhereId_In in Hit' as [it [Hit [[E ->]|[E ->]]]].
    + exfalso. apply Hgone. rewrite Hid, E in Hin. exact Hin.
    + apply H5; [assumption|]. now apply removeOne_In in Hin.
  - intros it' Hit'.
    apply mapWhereId_In in Hit' as [it [Hit [[E ->]|[E ->]]]]; [|auto].
    assert (Hst : status it = processing) by (apply H5; congruence).
    apply Htitle; [assumption|].
    destruct (H6 _ Hit) as [Hnone|Hdone]; [assumption | congruence].
  - intros it' Hit' Hty.
    apply mapWhereId_In in Hit' as [it [Hit [[E ->]|[E ->]]]]; [|auto].
    exfalso. rewrite Hfile in Hty.
    assert (Hst : status it = processing) by (apply H5; congruence).
    rewrite (H7 _ Hit Hty) in Hst. discriminate.
Qed.

Lemma resolved_consistent (used : list string) (i : string)
  (text : option string) (s : App) :
  Consistent used s -> Consistent used (processFileWithAi_resolved i text s).
Proof.
  intros HC. unfold processFileWithAi_resolved.
  destruct (isInFlight i s) eqn:Hfl; [|assumption].
  apply isInFlight_In in Hfl.
  apply ended_consistent; auto.
Qed.

Lemma rejected_consistent (used : list string) (i : string) (s : App) :
  Consistent used s -> Consistent used (processFileWithAi_rejected i s).
Proof.
  intros HC. unfold processFileWithAi_rejected.
  destruct (isInFlight i s) eqn:Hfl; [|assumption].
  apply isInFlight_In in Hfl.
  apply ended_consistent; auto.
Qed.

Lemma clearFiles_consistent (used : list string) (s : App) :
  Consistent used s -> Consistent used (clearFiles s).
Proof.
  intros [H1 H2 H3 H4 H5 H6 H7].
  constructor; simpl; try assumption; try (intros ? []); try constructor.
Qed.

Lemma clearFiles_forward (s : App) : ForwardStep s (clearFiles s).
Proof. intros k it it' _ H'. simpl in H'. now destruct k. Qed.

(** *** One event, then a whole run *)

Lemma step_consistent (used : list string) (s : App) (ev : Event) :
  Consistent used s -> NoDup (used ++ idsOfEvent ev) ->
  Consistent (used ++ idsOfEvent ev) (step s ev).
Proof.
  intros HC Hnd.
  destruct ev as [files| | |i text|i|zipOk|parsed|value]; cbn [step idsOfEvent].
  - now apply addFilesToQueue_consistent.
  - now apply Consistent_more, clearFiles_consistent.
  - now apply Consistent_more, useEffect_consistent.
  - now apply Consistent_more, resolved_consistent.
  - now apply Consistent_more, rejected_consistent.
  - apply Consistent_more.
    destruct (download_keeps zipOk s) as [Eq [Ef _]].
    now apply (Consistent_same used s).
  - now apply Consistent_more, (Consistent_same used s).
  - now apply Consistent_more, (Consistent_same used s).
Qed.

Lemma step_forward (used : list string) (s : App) (ev : Event) :
  Consistent used s -> ForwardStep s (step s ev).
Proof.
  intros HC.
  destruct ev as [files| | |i text|i|zipOk|parsed|value]; cbn [step].
  - apply addFilesToQueue_forward.
  - apply clearFiles_forward.
  - now apply (useEffect_forward used).
  - now apply (resolved_forward used).
  - now apply (rejected_forward used).
  - apply ForwardStep_same, download_keeps.
  - now apply ForwardStep_same.
  - now apply ForwardStep_same.
Qed.

Lemma run_consistent (evs : list Event) :
  NoDup (generatedIds evs) -> Consistent (generatedIds evs) (run evs).
Proof.
  induction evs as [|ev evs IH] using rev_ind; intros Hnd.
  - apply Consistent_initial.
  - rewrite run_snoc, generatedIds_snoc in *.
    apply step_consistent; [|assumption].
    apply IH. now apply NoDup_app_left in Hnd.
Qed.

End DistinctIds.

(** ** File names and the archive *)

Section ArchiveFacts.

Lemma Status_eqb_eq (a b : Status) : Status_eqb a b = true <-> a = b.
Proof. destruct a, b; simpl; split; congruence. Qed.

Lemma finishedOf_In (s : App) (item : QueueItem) :
  In item (finishedOf s) <-> In item (uploadedFiles s) /\ status item = done.
Proof.
  unfold finishedOf. rewrite filter_In. now rewrite Status_eqb_eq.
Qed.

Lemma drop_append (a b : string) : drop (String.length a) (a ++ b) = b.
Proof. induction a as [|c a IH]; simpl; auto. Qed.

Lemma lastIndexFrom_append (c : ascii) (a b : string) (i found : Z) :
  lastIndexFrom c (a ++ b) i found
  = lastIndexFrom c b (i + Z.of_nat (String.length a))
      (lastIndexFrom c a i found).
Proof.
  revert i found; induction a as [|d a IH]; intros i found.
  - simpl. now rewrite Z.add_0_r.
  - cbn [append lastIndexFrom String.length]. rewrite IH. f_equal. lia.
Qed.

(** The extension of [base.ext] is [.ext] when [ext] holds no dot. *)
Lemma extension_after_last_dot (base ext : string) :
  all_chars (fun d => negb (Ascii.eqb d ".")) ext = true ->
  let fileName := base ++ String "." ext in
  substring1 fileName (lastIndexOf fileName ".") = String "." ext.
Proof.
  intros Hext fileName. unfold lastIndexOf, fileName.
  rewrite lastIndexFrom_append. cbn [lastIndexFrom].
  rewrite Ascii.eqb_refl, (lastIndexFrom_absent _ _ _ _ Hext).
  unfold substring1, substring2, clampIndex.
  rewrite !Nat2Z.id, Z.add_0_l, Nat2Z.id, Nat.min_id, length_append.
  rewrite Nat.min_l by lia. rewrite Nat.min_l by lia.
  rewrite Nat.max_r by lia. rewrite drop_append.
  apply take_all. lia.
Qed.

(** Inside the range where sums are exact the number of an entry is the
    padded decimal text of [startNumber + index]. *)
Lemma numOf_safe (r : RenameSettings) (index : nat) :
  (- twoTo53 <= startNumber r)%Z ->
  (startNumber r + Z.of_nat index <= twoTo53)%Z ->
  numOf r index
  = padStart (decimal (startNumber r + Z.of_nat index)) (zeroPad r) "0".
Proof.
  intros Hlo Hhi. unfold numOf.
  rewrite Number_add_safe by lia. now rewrite toString_safe by lia.
Qed.

(** The name of an entry, with the padding made explicit. *)
Lemma newName_shape (r : RenameSettings) (item : QueueItem) (index : nat) :
  (- twoTo53 <= startNumber r)%Z ->
  (startNumber r + Z.of_nat index <= twoTo53)%Z ->
  exists pad,
    newName r item index
    = templateOf (aiTitle item) ++ "-" ++ pad
      ++ decimal (startNumber r + Z.of_nat index) ++ extOf item
    /\ all_chars (Ascii.eqb "0") pad = true
    /\ String.length (pad ++ decimal (startNumber r + Z.of_nat index))
       = Nat.max (Z.to_nat (zeroPad r))
           (String.length (decimal (startNumber r + Z.of_nat index))).
Proof.
  intros Hlo Hhi.
  destruct (padStart_single (decimal (startNumber r + Z.of_nat index))
              (zeroPad r) "0") as [pad [E [Hz Hlen]]].
  exists pad. repeat split; try assumption.
  unfold newName. rewrite (numOf_safe r index Hlo Hhi), E.
  now rewrite append_assoc.
Qed.


(** One idle image alone in the queue: the effect starts its call, and the
    answer ends it. *)
Lemma useEffect_single (r : RenameSettings) (f : File) (i url : string)
  (b : bool) :
  isImage f = true ->
  useEffect
    {| settings := r;
       uploadedFiles := [ {| file := f; id := i; preview := url;
                             aiTitle := None; status := idle |} ];
       isProcessing := b; inFlight := [] |}
  = {| settings := r;
       uploadedFiles := [ {| file := f; id := i; preview := url;
                             aiTitle := None; status := processing |} ];
       isProcessing := b; inFlight := [i] |}.
Proof.
  intros Himg. unfold useEffect, processFileWithAi.
  cbn [uploadedFiles find status Status_eqb id].
  unfold hasId at 1. cbn [id]. rewrite String.eqb_refl.
  cbn [file]. rewrite Himg. cbn [negb].
  unfold setInFlight, setUploadedFiles, mapWhereId, hasId.
  cbn [map id uploadedFiles inFlight settings isProcessing app].
  now rewrite String.eqb_refl.
Qed.

Lemma resolved_single (r : RenameSettings) (f : File) (i url : string)
  (b : bool) (text : option string) :
  processFileWithAi_resolved i text
    {| settings := r;
       uploadedFiles := [ {| file := f; id := i; preview := url;
                             aiTitle := None; status := processing |} ];
       isProcessing := b; inFlight := [i] |}
  = {| settings := r;
       uploadedFiles := [ {| file := f; id := i; preview := url;
                             aiTitle := Some (cleanTitle (rawTextOf text));
                             status := done |} ];
       isProcessing := b; inFlight := [] |}.
Proof.
  unfold processFileWithAi_resolved, isInFlight.
  cbn [inFlight existsb]. rewrite String.eqb_refl. cbn [orb].
  unfold setInFlight, setUploadedFiles, mapWhereId, hasId.
  cbn [map id uploadedFiles inFlight settings isProcessing removeOne].
  now rewrite !String.eqb_refl.
Qed.

Lemma scenarioRun_state (f : File) (random url : string) :
  isImage f = true ->
  run (scenarioRun f random url)
  = {| settings := {| startNumber := 5; zeroPad := 3 |};
       uploadedFiles :=
         [ {| file := f; id := substr random 2 9; preview := url;
              aiTitle := Some "blue-sky-over-mountains"; status := done |} ];
       isProcessing := false; inFlight := [] |}.
Proof.
  intros Himg. unfold scenarioRun, run. cbn [fold_left].
  change (step initialApp
            (FilesChosen [ {| pickedFile := f; random36 := random;
                              objectURL := url |} ]))
    with {| settings := {| startNumber := 1; zeroPad := 2 |};
            uploadedFiles := [ {| file := f; id := substr random 2 9;
                                  preview := url; aiTitle := None;
                                  status := idle |} ];
            isProcessing := false; inFlight := [] |}.
  cbn [step]. rewrite (useEffect_single _ _ _ _ _ Himg), resolved_single.
  reflexivity.
Qed.

End ArchiveFacts.

(** ** The sanitiser *)

Section SanitiserFacts.


Lemma lowerChar_twice (c : ascii) : lowerChar (lowerChar c) = lowerChar c.
Proof. destruct c as [[] [] [] [] [] [] [] []]; reflexivity. Qed.

Lemma lowerChar_space (c : ascii) :
  isWhiteSpace (lowerChar c) = isWhiteSpace c.
Proof. destruct c as [[] [] [] [] [] [] [] []]; reflexivity. Qed.











Lemma all_spaces_toLowerCase (t : string) :
  all_chars isWhiteSpace (toLowerCase t) = all_chars isWhiteSpace t.
Proof.
  induction t as [|c r IH]; simpl; [reflexivity|].
  now rewrite lowerChar_space, IH.
Qed.

Lemma trimStart_toLowerCase (t : string) :
  trimStart (toLowerCase t) = toLowerCase (trimStart t).
Proof.
  induction t as [|c r IH]; simpl; [reflexivity|].
  rewrite lowerChar_space. now destruct (isWhiteSpace c).
Qed.

Lemma trimEnd_toLowerCase (t : string) :
  trimEnd (toLowerCase t) = toLowerCase (trimEnd t).
Proof.
  induction t as [|c r IH]; simpl; [reflexivity|].
  rewrite lowerChar_space, all_spaces_toLowerCase.
  destruct (isWhiteSpace c && all_chars isWhiteSpace r); simpl;
    [reflexivity | now rewrite IH].
Qed.

Lemma toLowerCase_twice (t : string) :
  toLowerCase (toLowerCase t) = toLowerCase t.
Proof.
  induction t as [|c r IH]; simpl; [reflexivity|].
  now rewrite lowerChar_twice, IH.
Qed.

Lemma cleanTitle_toLowerCase (t : string) :
  cleanTitle (toLowerCase t) = cleanTitle t.
Proof.
  rewrite !cleanTitle_spec_sanitize. unfold spec_sanitize, trim.
  now rewrite trimStart_toLowerCase, trimEnd_toLowerCase, toLowerCase_twice.
Qed.

End SanitiserFacts.

(** ** Numbers in names *)

Section NumberFacts.

Lemma pos_to_uint_head (p : positive) (u : Decimal.uint) :
  Pos.to_uint p <> Decimal.D0 u.
Proof.
  intros E.
  assert (Hn : Decimal.unorm (Pos.to_uint p) = Pos.to_uint p).
  { rewrite <- DecimalPos.Unsigned.to_of, DecimalPos.Unsigned.of_to.
    reflexivity. }
  rewrite E, DecimalFacts.unorm_D0 in Hn.
  destruct u as [|u'|u'|u'|u'|u'|u'|u'|u'|u'|u'] eqn:Eu;
    [apply (DecimalPos.Unsigned.to_uint_nonzero p); exact E | ..];
    (pose proof (DecimalFacts.nb_digits_unorm u) as Hd;
     rewrite Eu, Hn in Hd; simpl in Hd;
     specialize (Hd ltac:(discriminate)); lia).
Qed.

Lemma decimal_nonempty (n : Z) : decimal n <> EmptyString.
Proof.
  unfold decimal. destruct n as [|p|p]; simpl; try discriminate.
  unfold NilZero.string_of_uint.
  destruct (Pos.to_uint p) eqn:E; simpl; try discriminate.
Qed.

(** The decimal text of an integer starts with a zero only if it is the
    text of zero. *)
Lemma decimal_leading_zero (n : Z) (rest : string) :
  decimal n = String "0" rest -> rest = EmptyString.
Proof.
  unfold decimal. destruct n as [|p|p]; simpl.
  - now intros [= <-].
  - unfold NilZero.string_of_uint.
    destruct (Pos.to_uint p) as [|u|u|u|u|u|u|u|u|u|u] eqn:E; simpl;
      try discriminate.
    + now intros [= <-].
    + now apply pos_to_uint_head in E.
  - discriminate.
Qed.

Lemma decimal_inj (a b : Z) : decimal a = decimal b -> a = b.
Proof.
  intros H. pose proof (decimal_reads_back a) as Ha.
  rewrite H, decimal_reads_back in Ha. now injection Ha.
Qed.

(** Zeros in front of two decimal texts cannot make them equal. *)
Lemma zeros_in_front_inj (p1 p2 s1 s2 : string) :
  all_chars (Ascii.eqb "0") p1 = true ->
  all_chars (Ascii.eqb "0") p2 = true ->
  s1 <> EmptyString -> s2 <> EmptyString ->
  (forall rest, s1 = String "0" rest -> rest = EmptyString) ->
  (forall rest, s2 = String "0" rest -> rest = EmptyString) ->
  p1 ++ s1 = p2 ++ s2 -> s1 = s2.
Proof.
  intros H1 H2 N1 N2 Z1 Z2. revert p2 H2.
  induction p1 as [|c p1 IH]; intros [|d p2] H2 E;
    cbn [all_chars append] in *.
  - exact E.
  - apply andb_true_iff in H2 as [Hd H2]. apply Ascii.eqb_eq in Hd. subst d.
    specialize (Z1 _ E). destruct p2; simpl in Z1; [contradiction|discriminate].
  - apply andb_true_iff in H1 as [Hc H1]. apply Ascii.eqb_eq in Hc. subst c.
    symmetry in E. specialize (Z2 _ E).
    destruct p1; simpl in Z2; [contradiction|discriminate].
  - apply andb_true_iff in H1 as [_ H1]. apply andb_true_iff in H2 as [_ H2].
    injection E as _ E. now apply (IH H1 p2).
Qed.

Lemma padded_number_inj (target a b : Z) :
  padStart (decimal a) target "0" = padStart (decimal b) target "0" ->
  a = b.
Proof.
  intros E.
  destruct (padStart_single (decimal a) target "0") as [p1 [E1 [H1 _]]].
  destruct (padStart_single (decimal b) target "0") as [p2 [E2 [H2 _]]].
  rewrite E1, E2 in E. apply decimal_inj.
  apply (zeros_in_front_inj p1 p2); auto using decimal_nonempty.
  - apply decimal_leading_zero.
  - apply decimal_leading_zero.
Qed.

(** Inside the range where sums are exact, the number text determines the
    index. *)
Lemma numOf_inj (r : RenameSettings) (i j : nat) :
  (- twoTo53 <= startNumber r)%Z ->
  (startNumber r + Z.of_nat i <= twoTo53)%Z ->
  (startNumber r + Z.of_nat j <= twoTo53)%Z ->
  numOf r i = numOf r j -> i = j.
Proof.
  intros Hlo Hi Hj E.
  rewrite (numOf_safe r i Hlo Hi), (numOf_safe r j Hlo Hj) in E.
  apply padded_number_inj in E. lia.
Qed.

Lemma digits_of_uint (d : Decimal.uint) :
  all_chars isDigit (NilEmpty.string_of_uint d) = true.
Proof. induction d; simpl; auto. Qed.

(** The decimal text of a number that is not negative holds digits only. *)
Lemma decimal_digits (n : Z) :
  (0 <= n)%Z -> all_chars isDigit (decimal n) = true.
Proof.
  unfold decimal. destruct n as [|p|p]; simpl; intros H; try reflexivity;
    [|lia].
  unfold NilZero.string_of_uint.
  destruct (Pos.to_uint p) eqn:E; try reflexivity;
    rewrite <- E; apply digits_of_uint.
Qed.

Lemma numOf_digits (r : RenameSettings) (index : nat) :
  (0 <= startNumber r)%Z ->
  (startNumber r + Z.of_nat index <= twoTo53)%Z ->
  all_chars isDigit (numOf r index) = true.
Proof.
  intros H Hhi.
  assert (H53 : (0 < twoTo53)%Z) by reflexivity.
  rewrite numOf_safe by lia.
  destruct (padStart_single (decimal (startNumber r + Z.of_nat index))
              (zeroPad r) "0") as [pad [E [Hz _]]].
  rewrite E, all_chars_append. apply andb_true_iff. split.
  - apply (all_chars_weaken (Ascii.eqb "0")); [|exact Hz].
    intros c Hc. apply Ascii.eqb_eq in Hc. now subst c.
  - apply decimal_digits. lia.
Qed.

End NumberFacts.

(** ** Names of archive entries *)

Section NameFacts.

Lemma append_cancel_l (a b c : string) : a ++ b = a ++ c -> b = c.
Proof. induction a as [|x a IH]; simpl; [auto|]. intros [= H]. auto. Qed.

Lemma append_cancel_r (a b c : string) : a ++ c = b ++ c -> a = b.
Proof.
  revert b; induction a as [|x a IH]; intros [|y b] H; simpl in H.
  - reflexivity.
  - exfalso. apply (f_equal String.length) in H.
    simpl in H. rewrite length_append in H. lia.
  - exfalso. apply (f_equal String.length) in H.
    simpl in H. rewrite length_append in H. lia.
  - injection H as -> H. f_equal. now apply IH.
Qed.

(** Cutting at the first occurrence of a character. *)
Lemma cut_at_first (c : ascii) (a a' r r' : string) :
  all_chars (fun d => negb (Ascii.eqb d c)) a = true ->
  all_chars (fun d => negb (Ascii.eqb d c)) a' = true ->
  a ++ String c r = a' ++ String c r' -> a = a' /\ r = r'.
Proof.
  revert a'; induction a as [|x a IH]; intros [|y a'] Ha Ha' E;
    cbn [all_chars append] in *.
  - injection E as ->. auto.
  - injection E as <- _. apply andb_true_iff in Ha' as [Hy _].
    now rewrite Ascii.eqb_refl in Hy.
  - injection E as -> _. apply andb_true_iff in Ha as [Hx _].
    now rewrite Ascii.eqb_refl in Hx.
  - injection E as -> E.
    apply andb_true_iff in Ha as [_ Ha]. apply andb_true_iff in Ha' as [_ Ha'].
    destruct (IH a' Ha Ha' E) as [-> ->]. auto.
Qed.

(** Cutting at the last occurrence of a character. *)
Lemma cut_at_last (c : ascii) (a a' b b' : string) :
  all_chars (fun d => negb (Ascii.eqb d c)) b = true ->
  all_chars (fun d => negb (Ascii.eqb d c)) b' = true ->
  a ++ String c b = a' ++ String c b' -> a = a' /\ b = b'.
Proof.
  intros Hb Hb'.
  assert (Hno : forall x y, all_chars (fun d => negb (Ascii.eqb d c))
                              (x ++ String c y) = false).
  { intros x y. rewrite all_chars_append. cbn [all_chars].
    rewrite Ascii.eqb_refl. simpl. now rewrite andb_false_r. }
  revert a'; induction a as [|x a IH]; intros [|y a'] E; cbn [append] in *.
  - injection E as ->. auto.
  - injection E as _ E. rewrite E, Hno in Hb. discriminate.
  - injection E as _ E. rewrite <- E, Hno in Hb'. discriminate.
  - injection E as -> E. destruct (IH a' E) as [-> ->]. auto.
Qed.

(** A name that holds a dot is a base, the last dot, and a rest without
    dot. *)
Lemma last_dot_decompose (fileName : string) :
  all_chars (fun d => negb (Ascii.eqb d ".")) fileName = false ->
  exists base ext,
    fileName = base ++ String "." ext
    /\ all_chars (fun d => negb (Ascii.eqb d ".")) ext = true.
Proof.
  induction fileName as [|c r IH]; cbn [all_chars]; [discriminate|].
  destruct (all_chars (fun d => negb (Ascii.eqb d ".")) r) eqn:Hr.
  - rewrite andb_true_r. intros Hc. apply negb_false_iff, Ascii.eqb_eq in Hc.
    subst c. now exists EmptyString, r.
  - intros _. destruct (IH eq_refl) as [base [ext [-> Hext]]].
    now exists (String c base), ext.
Qed.

Lemma extOf_dotted (item : QueueItem) :
  all_chars (fun d => negb (Ascii.eqb d ".")) (name (file item)) = false ->
  exists base ext,
    name (file item) = base ++ String "." ext
    /\ all_chars (fun d => negb (Ascii.eqb d ".")) ext = true
    /\ extOf item = String "." ext.
Proof.
  intros H. destruct (last_dot_decompose _ H) as [base [ext [E Hext]]].
  exists base, ext. repeat split; try assumption.
  unfold extOf. rewrite E. now apply extension_after_last_dot.
Qed.

Lemma inClass_not_dot (c : ascii) :
  inClass c = true -> negb (Ascii.eqb c ".") = true.
Proof. destruct c as [[] [] [] [] [] [] [] []]; vm_compute; congruence. Qed.

Lemma isDigit_not_dot (c : ascii) :
  isDigit c = true -> negb (Ascii.eqb c ".") = true.
Proof. destruct c as [[] [] [] [] [] [] [] []]; vm_compute; congruence. Qed.

Lemma isDigit_not_hyphen (c : ascii) :
  isDigit c = true -> negb (Ascii.eqb c "-") = true.
Proof. destruct c as [[] [] [] [] [] [] [] []]; vm_compute; congruence. Qed.

(** With a start number that is not negative, sums that stay exact,
    sanitised titles and file names that hold a dot, the name of an entry
    determines its index. *)
Lemma newName_inj (r : RenameSettings) (a b : QueueItem) (ta tb : string)
  (i j : nat) :
  (0 <= startNumber r)%Z ->
  (startNumber r + Z.of_nat i <= twoTo53)%Z ->
  (startNumber r + Z.of_nat j <= twoTo53)%Z ->
  aiTitle a = Some ta -> all_chars inClass ta = true ->
  aiTitle b = Some tb -> all_chars inClass tb = true ->
  all_chars (fun d => negb (Ascii.eqb d ".")) (name (file a)) = false ->
  all_chars (fun d => negb (Ascii.eqb d ".")) (name (file b)) = false ->
  newName r a i = newName r b j -> i = j.
Proof.
  intros Hstart Hi Hj Eta Hta Etb Htb Hda Hdb E.
  assert (H53 : (0 < twoTo53)%Z) by reflexivity.
  destruct (extOf_dotted a Hda) as [_ [ea [_ [Hea Exa]]]].
  destruct (extOf_dotted b Hdb) as [_ [eb [_ [Heb Exb]]]].
  unfold newName in E. rewrite Eta, Etb, Exa, Exb in E. cbn [templateOf] in E.
  pose proof (numOf_digits r i Hstart Hi) as Hni.
  pose proof (numOf_digits r j Hstart Hj) as Hnj.
  assert (Hfront : forall t n,
            all_chars inClass t = true -> all_chars isDigit n = true ->
            all_chars (fun d => negb (Ascii.eqb d ".")) (t ++ "-" ++ n) = true).
  { intros t n Ht Hn. rewrite !all_chars_append.
    rewrite (all_chars_weaken _ _ t inClass_not_dot Ht).
    now rewrite (all_chars_weaken _ _ n isDigit_not_dot Hn). }
  rewrite <- !append_assoc in E.
  assert (E' : (ta ++ "-" ++ numOf r i) ++ String "." ea
               = (tb ++ "-" ++ numOf r j) ++ String "." eb)
    by (rewrite !append_assoc; rewrite !append_assoc in E; exact E).
  apply cut_at_first in E' as [E' _]; auto.
  change (ta ++ String "-" (numOf r i) = tb ++ String "-" (numOf r j)) in E'.
  apply cut_at_last in E' as [_ E'].
  - apply numOf_inj in E'; auto; lia.
  - now apply (all_chars_weaken _ _ _ isDigit_not_hyphen).
  - now apply (all_chars_weaken _ _ _ isDigit_not_hyphen).
Qed.

Lemma filter_firstn_nth {A : Type} (p : A -> bool) (l : list A) (k : nat)
  (x : A) :
  nth_error l k = Some x -> p x = true ->
  nth_error (filter p l) (List.length (filter p (firstn k l))) = Some x.
Proof.
  revert k; induction l as [|a l IH]; intros [|k]; simpl; try discriminate.
  - intros [= ->] Hp. now rewrite Hp.
  - intros H Hp. destruct (p a); simpl; now apply IH.
Qed.

Lemma filter_firstn_full {A : Type} (p : A -> bool) (l : list A) (k : nat) :
  k <= List.length l ->
  (List.length (filter p (firstn k l)) = k
   <-> forall j y, j < k -> nth_error l j = Some y -> p y = true).
Proof.
  revert k; induction l as [|a l IH]; intros [|k] Hk; simpl in *; try lia.
  - split; [intros _ j y Hj; lia | reflexivity].
  - split; [intros _ j y Hj; lia | reflexivity].
  - assert (Hle : List.length (filter p (firstn k l)) <= k).
    { etransitivity; [apply filter_length_le|]. apply firstn_le_length. }
    destruct (p a) eqn:Hp; simpl.
    + rewrite Nat.succ_inj_wd, (IH k) by lia. split.
      * intros H [|j] y Hj; simpl; [now intros [= <-]|].
        apply H. lia.
      * intros H j y Hj Hy. apply (H (S j)); [lia | exact Hy].
    + split; [lia|]. intros H. specialize (H 0 a ltac:(lia) eq_refl).
      congruence.
Qed.

End NameFacts.

(** ** What the archive keeps of the writes *)

Section KeptFacts.

Lemma addOrUpdate_names (n : string) (d : File) (a : list (string * File)) :
  forall x, In x (map fst (addOrUpdate n d a)) <-> x = n \/ In x (map fst a).
Proof.
  induction a as [|[m e] a IH]; intros x; simpl.
  - intuition.
  - destruct (String.eqb_spec m n) as [->|Hne]; simpl.
    + intuition.
    + rewrite IH. intuition.
Qed.

Lemma addOrUpdate_NoDup (n : string) (d : File) (a : list (string * File)) :
  NoDup (map fst a) -> NoDup (map fst (addOrUpdate n d a)).
Proof.
  induction a as [|[m e] a IH]; simpl; intros H.
  - repeat constructor. intros [].
  - inversion H as [|? ? Hnotin Hnd]; subst.
    destruct (String.eqb_spec m n) as [->|Hne]; simpl.
    + now constructor.
    + constructor; [|now apply IH].
      rewrite addOrUpdate_names. intros [E|Hin]; [congruence | contradiction].
Qed.

Lemma addOrUpdate_from (n : string) (d : File) (a : list (string * File)) :
  forall w, In w (addOrUpdate n d a) -> w = (n, d) \/ In w a.
Proof.
  induction a as [|[m e] a IH]; intros w; simpl.
  - intuition.
  - destruct (String.eqb_spec m n) as [->|Hne]; simpl.
    + intuition.
    + intros [E|Hin]; [now right; left|].
      destruct (IH w Hin); [now left | now right; right].
Qed.

Lemma addOrUpdate_fresh (n : string) (d : File) (a : list (string * File)) :
  ~ In n (map fst a) -> addOrUpdate n d a = (a ++ [(n, d)])%list.
Proof.
  induction a as [|[m e] a IH]; simpl; intros H; [reflexivity|].
  destruct (String.eqb_spec m n) as [->|Hne]; [tauto|].
  rewrite IH; tauto.
Qed.

Lemma addOrUpdate_length (n : string) (d : File) (a : list (string * File)) :
  List.length (addOrUpdate n d a) <= S (List.length a).
Proof.
  induction a as [|[m e] a IH]; simpl; [lia|].
  destruct (String.eqb m n); simpl; lia.
Qed.

(** The archive built on top of [acc]. *)
Lemma kept_on_top (zip acc : list (string * File)) :
  let archive :=
    fold_left (fun archive w => addOrUpdate (fst w) (snd w) archive) zip acc in
  (NoDup (map fst acc) -> NoDup (map fst archive))
  /\ (forall x, In x (map fst archive)
                <-> In x (map fst acc) \/ In x (map fst zip))
  /\ (forall w, In w archive -> In w acc \/ In w zip)
  /\ List.length archive <= List.length acc + List.length zip
  /\ (NoDup (map fst (acc ++ zip)) -> archive = (acc ++ zip)%list).
Proof.
  revert acc; induction zip as [|[n d] zip IH]; intros acc; simpl.
  - repeat split; auto; try tauto; try lia. now rewrite app_nil_r.
  - destruct (IH (addOrUpdate n d acc)) as [H1 [H2 [H3 [H4 H5]]]].
    repeat split.
    + intros Hnd. now apply H1, addOrUpdate_NoDup.
    + rewrite H2, addOrUpdate_names. intuition congruence.
    + rewrite H2, addOrUpdate_names. intuition congruence.
    + intros w Hw. destruct (H3 w Hw) as [Hin|Hin]; [|now right; right].
      destruct (addOrUpdate_from n d acc w Hin) as [->|Hacc];
        [now right; left | now left].
    + pose proof (addOrUpdate_length n d acc). lia.
    + intros Hnd. rewrite map_app in Hnd. simpl in Hnd.
      assert (Hfresh : ~ In n (map fst acc)).
      { intros Hin. apply NoDup_remove_2 in Hnd. apply Hnd.
        apply in_or_app. now left. }
      rewrite H5; rewrite (addOrUpdate_fresh n d acc Hfresh).
      * now rewrite <- app_assoc.
      * rewrite <- app_assoc, map_app. exact Hnd.
Qed.

Lemma addOrUpdate_self (n : string) (d : File) (a : list (string * File)) :
  In (n, d) (addOrUpdate n d a).
Proof.
  induction a as [|[m e] a IH]; simpl; [now left|].
  destruct (String.eqb_spec m n) as [->|Hne]; simpl; [now left | now right].
Qed.

Lemma addOrUpdate_other (m n : string) (d e : File)
  (a : list (string * File)) :
  m <> n -> In (n, d) a -> In (n, d) (addOrUpdate m e a).
Proof.
  intros Hne. induction a as [|[x y] a IH]; simpl; [tauto|].
  destruct (String.eqb_spec x m) as [->|Hx]; simpl.
  - intros [[= E _]|Hin]; [congruence | now right].
  - intros [E|Hin]; [now left | right; auto].
Qed.

(** The data kept under a name is that of the last write under it. *)
Lemma archiveOf_last_write (front back : list (string * File)) (n : string)
  (d : File) :
  ~ In n (map fst back) ->
  In (n, d) (archiveOf (front ++ (n, d) :: back)).
Proof.
  intros Hback. unfold archiveOf. rewrite fold_left_app. cbn [fold_left fst snd].
  pose proof (addOrUpdate_self n d
                (fold_left (fun archive w => addOrUpdate (fst w) (snd w) archive)
                   front [])) as Hin.
  revert Hin.
  generalize (addOrUpdate n d
                (fold_left (fun archive w => addOrUpdate (fst w) (snd w) archive)
                   front [])) as a.
  induction back as [|[m e] back IH]; intros a Hin; simpl; [exact Hin|].
  simpl in Hback. apply IH; [tauto|].
  apply addOrUpdate_other; [|exact Hin]. intros E. apply Hback. now left.
Qed.

(** One entry per name; the names are those of the writes; every entry is
    one of the writes; and writes under different names are all kept, in
    their order. *)
Lemma archiveOf_kept (zip : list (string * File)) :
  NoDup (map fst (archiveOf zip))
  /\ (forall x, In x (map fst (archiveOf zip)) <-> In x (map fst zip))
  /\ (forall w, In w (archiveOf zip) -> In w zip)
  /\ List.length (archiveOf zip) <= List.length zip
  /\ (NoDup (map fst zip) -> archiveOf zip = zip).
Proof.
  destruct (kept_on_top zip []) as [H1 [H2 [H3 [H4 H5]]]].
  unfold archiveOf. repeat split.
  - apply H1. constructor.
  - intros H. apply H2 in H. simpl in H. tauto.
  - intros H. apply H2. now right.
  - intros w Hw. destruct (H3 w Hw) as [[]|Hin]. exact Hin.
  - exact H4.
  - exact H5.
Qed.

Lemma extOf_pinned (item : QueueItem) :
  (all_chars (fun d => negb (Ascii.eqb d ".")) (name (file item)) = true
   /\ extOf item = name (file item))
  \/ (exists base ext,
        name (file item) = base ++ String "." ext
        /\ all_chars (fun d => negb (Ascii.eqb d ".")) ext = true
        /\ extOf item = String "." ext).
Proof.
  destruct (all_chars (fun d => negb (Ascii.eqb d ".")) (name (file item)))
    eqn:H.
  - left. split; [reflexivity|]. unfold extOf.
    rewrite (lastIndexFrom_absent _ _ _ _ H : lastIndexOf _ _ = (-1)%Z).
    now apply substring1_all.
  - right. apply (extOf_dotted item H).
Qed.

(** The names written for the [done] entries are pairwise different when
    the start number is not negative, the sums stay exact and the file
    names hold a dot. *)
Lemma names_written_distinct (evs : list Event) :
  (0 <= startNumber (settings (run evs)))%Z ->
  (startNumber (settings (run evs))
   + Z.of_nat (List.length (finishedOf (run evs))) <= twoTo53)%Z ->
  (forall item, In item (finishedOf (run evs)) ->
     all_chars (fun d => negb (Ascii.eqb d ".")) (name (file item)) = false) ->
  NoDup (map fst (zipOf (settings (run evs)) (finishedOf (run evs)))).
Proof.
  intros Hstart Hsum Hdots. apply NoDup_nth_error. intros i j Hi E.
  rewrite length_map, zipOf_length in Hi.
  destruct (nth_error (finishedOf (run evs)) i) as [a|] eqn:Ha;
    [|apply nth_error_None in Ha; lia].
  rewrite !nth_error_map, (zipOf_nth _ _ _ _ Ha) in E. simpl in E.
  destruct (nth_error (finishedOf (run evs)) j) as [b|] eqn:Hb.
  - rewrite (zipOf_nth _ _ _ _ Hb) in E. simpl in E. injection E as E.
    assert (Hj : j < List.length (finishedOf (run evs)))
      by (apply nth_error_Some; now rewrite Hb).
    assert (Hina : In a (finishedOf (run evs))) by now apply nth_error_In in Ha.
    assert (Hinb : In b (finishedOf (run evs))) by now apply nth_error_In in Hb.
    pose proof (Hdots a Hina) as Hda. pose proof (Hdots b Hinb) as Hdb.
    apply finishedOf_In in Hina as [Hqa Hsa].
    apply finishedOf_In in Hinb as [Hqb Hsb].
    destruct (run_sound evs a Hqa) as [Hta Hca].
    destruct (run_sound evs b Hqb) as [Htb Hcb].
    destruct (aiTitle a) as [ta|] eqn:Eta; [|now exfalso; apply Hta].
    destruct (aiTitle b) as [tb|] eqn:Etb; [|now exfalso; apply Htb].
    apply (newName_inj (settings (run evs)) a b ta tb); auto; try lia.
    + apply (Hca ta eq_refl).
    + apply (Hcb tb eq_refl).
  - exfalso. assert (Hnone : nth_error (zipOf (settings (run evs))
                                          (finishedOf (run evs))) j = None).
    { apply nth_error_None. rewrite zipOf_length.
      now apply nth_error_None in Hb. }
    rewrite Hnone in E. discriminate E.
Qed.

End KeptFacts.

(** ** The model on small inputs *)

Section Samples.

Example cleanTitle_sample :
  cleanTitle ("  Blue Sky   over" ++ String (ascii_of_nat 10) "Mountains!! ")
  = "blue-sky-over-mountains".
Proof. reflexivity. Qed.

Example cleanTitle_only_symbols : cleanTitle "?!" = EmptyString.
Proof. reflexivity. Qed.

Example padStart_samples :
  padStart (toString 5) 3 "0" = "005"
  /\ padStart (toString 12345) 3 "0" = "12345"
  /\ padStart (toString (-5)) 3 "0" = "0-5"
  /\ padStart "x" 6 "abc" = "abcabx".
Proof. repeat split. Qed.

Example extension_samples :
  substring1 "a.tar.gz" (lastIndexOf "a.tar.gz" ".") = ".gz"
  /\ lastIndexOf "scan" "." = (-1)%Z
  /\ substring1 "scan" (-1) = "scan".
Proof. repeat split. Qed.

Example id_samples :
  substr "0.4fzyo82mvyr" 2 9 = "4fzyo82mv"
  /\ substr "0.i" 2 9 = "i"
  /\ substr "0" 2 9 = EmptyString.
Proof. repeat split. Qed.

Example captionedRun_download :
  snd (downloadRenamedFiles true (run captionedRun))
  = Download "vision-ai-renamed.zip"
      [("blue-sky-over-mountains-005.jpg", jpegFile)].
Proof. reflexivity. Qed.

Example mixedRun_statuses :
  map status (uploadedFiles (run mixedRun)) = [idle; idle]
  /\ run (mixedRun ++ [EffectRuns]) = run mixedRun.
Proof. split; reflexivity. Qed.

Example collidingRun_statuses :
  map status (uploadedFiles (run collidingRun)) = [done; idle]
  /\ map status (uploadedFiles (run (collidingRun ++ [EffectRuns])))
     = [processing; processing].
Proof. split; reflexivity. Qed.

Example maskedRun_download :
  snd (downloadRenamedFiles true (run maskedRun))
  = Download "vision-ai-renamed.zip"
      [("sky-01.jpg", jpegFile); ("sky-02.txt", textFile)].
Proof. reflexivity. Qed.

Example number_samples :
  numberOf (twoTo53 + 1) = twoTo53
  /\ numberOf (twoTo53 + 3) = (twoTo53 + 4)%Z
  /\ Number_add twoTo53 1 = twoTo53
  /\ toString (-5) = "-5"
  /\ toString (numberOf 123456789012345678) = "123456789012345680"
  /\ toString (2 ^ 70) = "1.1805916207174113e+21"
  /\ toString (numberOf (10 ^ 23)) = "1e+23"
  /\ toString (numberOf (10 ^ 400)) = "Infinity".
Proof. repeat split; vm_compute; reflexivity. Qed.

Example clashRun_download :
  snd (downloadRenamedFiles true (run clashRun))
  = Download "vision-ai-renamed.zip"
      [("a--1.jpg", jpegFile); ("b-0.jpg", jpegFile); ("a--1.jpg", jpegFile)]
  /\ archiveOf
       [("a--1.jpg", jpegFile); ("b-0.jpg", jpegFile); ("a--1.jpg", jpegFile)]
     = [("a--1.jpg", jpegFile); ("b-0.jpg", jpegFile)].
Proof. split; vm_compute; reflexivity. Qed.

Example archiveOf_replaces_in_place :
  archiveOf [("a.txt", textFile); ("b.jpg", jpegFile); ("a.txt", pngFile)]
  = [("a.txt", pngFile); ("b.jpg", jpegFile)].
Proof. reflexivity. Qed.

End Samples.

(** * The claims *)

(** Closes [NoDup l] for a list [l] of distinct string literals. *)
Ltac distinct_strings :=
  repeat (constructor; [simpl; intuition discriminate|]); constructor.

(** C1, as amended.  Whenever [downloadRenamedFiles] is called in a
    reachable state with at least one [done] entry and the zip library does
    its work, it writes one entry per [done] entry, in queue order, with
    that entry's file.  The write at index [index] among the [done] entries
    is named caption, hyphen, number, extension.  The extension is the file
    name from its last dot on, the whole name if it has no dot.  As long as
    the start number is at least -2^53 and [startNumber + index] at most
    2^53, the number is the decimal text of [startNumber + index] behind
    zeros only, as long as the larger of [zeroPad] and the length of the
    decimal text, so nothing is cut off.  The archive keeps one entry per
    name, with the data of the last write under that name; it keeps all the
    writes, in their order, when their names are pairwise different, which
    they are when the
    start number is not negative, [startNumber] plus the number of [done]
    entries is at most 2^53 and every [done] file name holds a dot.  One
    JPEG captioned [blue-sky-over-mountains] under the settings 5 and 3
    gives the one entry [blue-sky-over-mountains-005.jpg]. *)
Theorem archive_entries_are_named_and_kept_when_names_differ :
  (forall evs : list Event,
     finishedOf (run evs) <> [] ->
     exists zip,
       downloadRenamedFiles true (run evs)
       = (setIsProcessing false (run evs), Download "vision-ai-renamed.zip" zip)
       /\ isProcessing (fst (downloadRenamedFiles true (run evs))) = false
       /\ List.length zip = List.length (finishedOf (run evs))
       /\ map snd zip = map file (finishedOf (run evs))
       /\ (forall index item,
             nth_error (finishedOf (run evs)) index = Some item ->
             exists captionText number extension,
               aiTitle item = Some captionText
               /\ nth_error zip index
                  = Some (captionText ++ "-" ++ number ++ extension, file item)
               /\ ((all_chars (fun d => negb (Ascii.eqb d "."))
                      (name (file item)) = true
                    /\ extension = name (file item))
                   \/ (exists base ext,
                         name (file item) = base ++ String "." ext
                         /\ all_chars (fun d => negb (Ascii.eqb d ".")) ext
                            = true
                         /\ extension = String "." ext))
               /\ ((- twoTo53 <= startNumber (settings (run evs)))%Z ->
                   (startNumber (settings (run evs)) + Z.of_nat index
                    <= twoTo53)%Z ->
                   exists pad,
                     number
                     = pad ++ decimal (startNumber (settings (run evs))
                                       + Z.of_nat index)
                     /\ all_chars (Ascii.eqb "0") pad = true
                     /\ String.length number
                        = Nat.max (Z.to_nat (zeroPad (settings (run evs))))
                            (String.length
                               (decimal (startNumber (settings (run evs))
                                         + Z.of_nat index)))
                     /\ option_map Z.of_int
                          (NilZero.int_of_string
                             (decimal (startNumber (settings (run evs))
                                       + Z.of_nat index)))
                        = Some (startNumber (settings (run evs))
                                + Z.of_nat index)%Z))
       /\ (forall item,
             In item (finishedOf (run evs))
             <-> In item (uploadedFiles (run evs)) /\ status item = done)
       /\ NoDup (map fst (archiveOf zip))
       /\ (forall w, In w (archiveOf zip) -> In w zip)
       /\ (forall front entryName data back,
             zip = (front ++ (entryName, data) :: back)%list ->
             ~ In entryName (map fst back) ->
             In (entryName, data) (archiveOf zip))
       /\ (NoDup (map fst zip) -> archiveOf zip = zip)
       /\ ((0 <= startNumber (settings (run evs)))%Z ->
           (startNumber (settings (run evs))
            + Z.of_nat (List.length (finishedOf (run evs))) <= twoTo53)%Z ->
           (forall item, In item (finishedOf (run evs)) ->
              all_chars (fun d => negb (Ascii.eqb d ".")) (name (file item))
              = false) ->
           archiveOf zip = zip))
  /\ (forall base mime data random url : string,
        let jpeg := {| name := base ++ ".jpg"; type := "image/" ++ mime;
                       bytes := data |} in
        snd (downloadRenamedFiles true (run (scenarioRun jpeg random url)))
        = Download "vision-ai-renamed.zip"
            [("blue-sky-over-mountains-005.jpg", jpeg)]
        /\ archiveOf [("blue-sky-over-mountains-005.jpg", jpeg)]
           = [("blue-sky-over-mountains-005.jpg", jpeg)]).
Proof.
  split.
  - intros evs Hne.
    exists (zipOf (settings (run evs)) (finishedOf (run evs))).
    destruct (archiveOf_kept (zipOf (settings (run evs)) (finishedOf (run evs))))
      as [K1 [K2 [K3 [_ K5]]]].
    assert (Hdl : downloadRenamedFiles true (run evs)
                  = (setIsProcessing false (run evs),
                     Download "vision-ai-renamed.zip"
                       (zipOf (settings (run evs)) (finishedOf (run evs))))).
    { unfold downloadRenamedFiles.
      destruct (finishedOf (run evs)) eqn:E; [congruence | reflexivity]. }
    split; [exact Hdl|]. split; [now rewrite Hdl|].
    split; [apply zipOf_length | split; [apply zipOf_data|]].
    split; [|split; [apply finishedOf_In | split; [exact K1 | split;
               [exact K3 | split;
                 [intros front n d back -> Hb; now apply archiveOf_last_write
                 | split; [exact K5|]]]]]].
    + intros index item Hnth.
      assert (Hin : In item (finishedOf (run evs)))
        by (now apply nth_error_In in Hnth).
      apply finishedOf_In in Hin as [Hin Hdone].
      destruct (run_sound evs item Hin) as [Htitle _].
      destruct (aiTitle item) as [captionText|] eqn:Et;
        [|now exfalso; apply Htitle].
      exists captionText, (numOf (settings (run evs)) index), (extOf item).
      split; [reflexivity|]. split.
      { rewrite (zipOf_nth _ _ _ _ Hnth). unfold newName. now rewrite Et. }
      split; [apply extOf_pinned|].
      intros Hlo Hhi. rewrite (numOf_safe _ _ Hlo Hhi).
      destruct (padStart_single
                  (decimal (startNumber (settings (run evs)) + Z.of_nat index))
                  (zeroPad (settings (run evs))) "0") as [pad [E [Hz Hlen]]].
      exists pad. rewrite E.
      repeat split; try assumption. apply decimal_reads_back.
    + intros Hstart Hsum Hdots. apply K5.
      now apply names_written_distinct.
  - intros base mime data random url jpeg.
    assert (Himg : isImage jpeg = true) by (vm_compute; reflexivity).
    rewrite (scenarioRun_state jpeg random url Himg).
    split; [|reflexivity].
    unfold downloadRenamedFiles, finishedOf.
    cbn [uploadedFiles filter status Status_eqb settings setIsProcessing snd].
    unfold zipOf. cbn [forEach zip_file app file].
    unfold newName, extOf. cbn [file name aiTitle templateOf jpeg].
    change (base ++ ".jpg") with (base ++ String "." "jpg").
    rewrite (extension_after_last_dot base "jpg" eq_refl).
    reflexivity.
Qed.

Lemma archive_entries_are_named_and_kept_when_names_differ_witness :
  finishedOf (run pairRun) <> []
  /\ (0 <= startNumber (settings (run pairRun)))%Z
  /\ (startNumber (settings (run pairRun))
      + Z.of_nat (List.length (finishedOf (run pairRun))) <= twoTo53)%Z
  /\ exists zip,
       downloadRenamedFiles true (run pairRun)
       = (setIsProcessing false (run pairRun),
          Download "vision-ai-renamed.zip" zip)
       /\ List.length zip = 2
       /\ archiveOf zip = zip.
Proof.
  assert (H : finishedOf (run pairRun) <> [])
    by (vm_compute; discriminate).
  assert (H0 : (0 <= startNumber (settings (run pairRun)))%Z)
    by (vm_compute; discriminate).
  assert (H1 : (startNumber (settings (run pairRun))
                + Z.of_nat (List.length (finishedOf (run pairRun)))
                <= twoTo53)%Z)
    by (vm_compute; discriminate).
  split; [exact H|]. split; [exact H0|]. split; [exact H1|].
  destruct (proj1 archive_entries_are_named_and_kept_when_names_differ
              pairRun H)
    as [zip [E [_ [L [_ [_ [_ [_ [_ [_ [_ K]]]]]]]]]]].
  exists zip. split; [exact E|]. split; [exact L|].
  apply (K H0 H1). intros item [<-|[<-|[]]]; reflexivity.
Defined.

(** C1 as the specification words it fails: with the start number -1 and
    the padding 1, the first entry, captioned [a], and the third, captioned
    [a-], are both written as [a--1.jpg]; the archive holds two entries for
    three [done] items. *)
Lemma equal_names_leave_fewer_entries :
  ~ (forall evs : list Event,
       finishedOf (run evs) <> [] ->
       forall zip,
         snd (downloadRenamedFiles true (run evs))
         = Download "vision-ai-renamed.zip" zip ->
         List.length (archiveOf zip) = List.length (finishedOf (run evs))).
Proof.
  intros H.
  assert (Hne : finishedOf (run clashRun) <> [])
    by (vm_compute; discriminate).
  specialize (H clashRun Hne _ eq_refl).
  vm_compute in H. discriminate H.
Qed.

(** C8.  When no entry of the queue is [done], [downloadRenamedFiles] only
    raises the alert: it returns the state it was given (queue, settings,
    [isProcessing] and calls in flight) and no download, whatever the zip
    library would have done. *)
Theorem download_without_done_items_only_alerts :
  forall (zipOk : bool) (s : App),
    finishedOf s = [] ->
    downloadRenamedFiles zipOk s = (s, Alert "No files processed by AI yet.")
    /\ step s (DownloadClicked zipOk) = s.
Proof.
  intros zipOk s H. unfold step, downloadRenamedFiles. now rewrite H.
Qed.

Lemma download_without_done_items_only_alerts_witness :
  finishedOf (run mixedRun) = []
  /\ downloadRenamedFiles true (run mixedRun)
     = (run mixedRun, Alert "No files processed by AI yet.").
Proof.
  assert (H : finishedOf (run mixedRun) = []) by (vm_compute; reflexivity).
  split; [exact H|].
  exact (proj1 (download_without_done_items_only_alerts true (run mixedRun) H)).
Defined.



(** C3.  Handing N files to [addFilesToQueue] when the queue holds M
    entries and M + N exceeds 200 leaves exactly 200 entries.  The M old
    ones are at their positions, as they were.  Behind them, at position
    M + k for k below 200 - M, stands the entry of the k-th new file: that
    file, the id cut from its random text, its preview, no title, idle.  The
    files from the (200 - M)-th on get no entry.  The call always returns a
    state; and in no reachable state does the queue hold more than 200
    entries. *)
Theorem enqueue_over_capacity_keeps_first_200 :
  (forall (evs : list Event) (files : list Picked),
     let prev := uploadedFiles (run evs) in
     List.length prev + List.length files > 200 ->
     uploadedFiles (addFilesToQueue files (run evs))
     = (prev ++ firstn (200 - List.length prev) (map newItem files))%list
     /\ List.length (uploadedFiles (addFilesToQueue files (run evs))) = 200
     /\ run (evs ++ [FilesChosen files]) = addFilesToQueue files (run evs)
     /\ (forall k it,
           nth_error prev k = Some it ->
           nth_error (uploadedFiles (addFilesToQueue files (run evs))) k
           = Some it)
     /\ (forall k p,
           k < 200 - List.length prev ->
           nth_error files k = Some p ->
           nth_error (uploadedFiles (addFilesToQueue files (run evs)))
             (List.length prev + k)
           = Some {| file := pickedFile p;
                     id := substr (random36 p) 2 9;
                     preview := objectURL p;
                     aiTitle := None;
                     status := idle |})
     /\ map file (uploadedFiles (addFilesToQueue files (run evs)))
        = (map file prev
           ++ firstn (200 - List.length prev) (map pickedFile files))%list)
  /\ (forall evs : list Event, List.length (uploadedFiles (run evs)) <= 200).
Proof.
  split; [|exact run_length].
  intros evs files prev Hover.
  assert (Hcap : List.length prev <= 200) by apply run_length.
  assert (E : uploadedFiles (addFilesToQueue files (run evs))
              = (prev ++ firstn (200 - List.length prev)
                           (map newItem files))%list).
  { rewrite addFilesToQueue_queue, firstn_app. fold prev.
    now rewrite firstn_all2 by exact Hcap. }
  split; [exact E|].
  split; [rewrite E, length_app, length_firstn, length_map; lia|].
  split; [apply run_snoc|]. split; [|split].
  - intros k it Hk. rewrite E, nth_error_app1; [exact Hk|].
    apply nth_error_Some. now rewrite Hk.
  - intros k p Hk Hp. rewrite E, nth_error_app2 by lia.
    replace (List.length prev + k - List.length prev) with k by lia.
    rewrite nth_error_firstn.
    rewrite (proj2 (Nat.ltb_lt k (200 - List.length prev)) Hk).
    now rewrite nth_error_map, Hp.
  - rewrite E, map_app, <- firstn_map, map_map. reflexivity.
Qed.

Lemma enqueue_over_capacity_keeps_first_200_witness :
  List.length (uploadedFiles (run pendingRun)) + List.length manyFiles > 200
  /\ List.length (uploadedFiles (addFilesToQueue manyFiles (run pendingRun)))
     = 200
  /\ nth_error (uploadedFiles (addFilesToQueue manyFiles (run pendingRun))) 0
     = Some {| file := jpegFile; id := "4fzyo82mv"; preview := "blob:1";
               aiTitle := None; status := processing |}
  /\ nth_error (uploadedFiles (addFilesToQueue manyFiles (run pendingRun)))
       (List.length (uploadedFiles (run pendingRun)) + 198)
     = Some {| file := jpegFile; id := "4fzyo82mv";
               preview := "blob:1"; aiTitle := None; status := idle |}.
Proof.
  assert (H : List.length (uploadedFiles (run pendingRun))
              + List.length manyFiles > 200) by (vm_compute; lia).
  destruct (proj1 enqueue_over_capacity_keeps_first_200 pendingRun manyFiles H)
    as [_ [L [_ [Hold [Hnew _]]]]].
  split; [exact H|]. split; [exact L|]. split.
  - exact (Hold 0 _ eq_refl).
  - apply (Hnew 198 {| pickedFile := jpegFile; random36 := "0.4fzyo82mvyr";
                       objectURL := "blob:1" |}); [vm_compute; lia|].
    reflexivity.
Defined.

(** C2, as amended.  When the remote call on [i] resolves, every entry with
    that id becomes [done] and its title is the chain of the specification
    (lower-case, white-space runs to one hyphen, strip outside [a-z0-9-],
    cut at 190) applied to the trimmed text, the placeholder standing in
    for an absent or empty text.  That title, and every title found in a
    reachable queue, is made of [a-z0-9-] only, is at most 190 long and
    holds no white space. *)
Theorem stored_caption_is_trimmed_then_sanitized :
  (forall (s : App) (i : string) (text : option string) (k : nat)
          (it : QueueItem),
     isInFlight i s = true ->
     nth_error (uploadedFiles s) k = Some it ->
     id it = i ->
     exists captionText,
       nth_error (uploadedFiles (processFileWithAi_resolved i text s)) k
       = Some (withTitle captionText done it)
       /\ captionText = spec_sanitize (trim (rawTextOf text))
       /\ all_chars inClass captionText = true
       /\ String.length captionText <= 190
       /\ all_chars (fun c => negb (isWhiteSpace c)) captionText = true)
  /\ (forall (evs : list Event) (it : QueueItem) (captionText : string),
        In it (uploadedFiles (run evs)) ->
        aiTitle it = Some captionText ->
        all_chars inClass captionText = true
        /\ String.length captionText <= 190
        /\ all_chars (fun c => negb (isWhiteSpace c)) captionText = true).
Proof.
  split.
  - intros s i text k it Hfl Hnth Hid.
    exists (cleanTitle (rawTextOf text)).
    split; [|split; [apply cleanTitle_spec_sanitize|]].
    + unfold processFileWithAi_resolved. rewrite Hfl. simpl.
      rewrite mapWhereId_nth, Hnth. simpl.
      apply hasId_true in Hid. now rewrite Hid.
    + split; [apply cleanTitle_inClass|].
      split; [apply cleanTitle_length|].
      apply (all_chars_weaken inClass); [apply inClass_not_space|].
      apply cleanTitle_inClass.
  - intros evs it captionText Hin Htitle.
    destruct (run_sound evs it Hin) as [_ H].
    destruct (H captionText Htitle) as [Hclass Hlen].
    repeat split; try assumption.
    now apply (all_chars_weaken inClass); [apply inClass_not_space|].
Qed.

Lemma stored_caption_is_trimmed_then_sanitized_witness :
  isInFlight "4fzyo82mv" (run pendingRun) = true
  /\ (exists captionText,
        nth_error
          (uploadedFiles
             (processFileWithAi_resolved "4fzyo82mv" (Some " A  b ")
                (run pendingRun))) 0
        = Some {| file := jpegFile; id := "4fzyo82mv"; preview := "blob:1";
                  aiTitle := Some captionText; status := done |}
        /\ captionText = "a-b")
  /\ String.length "blue-sky-over-mountains" <= 190.
Proof.
  split; [reflexivity|]. split.
  - destruct (proj1 stored_caption_is_trimmed_then_sanitized (run pendingRun)
                "4fzyo82mv" (Some " A  b ") 0
                {| file := jpegFile; id := "4fzyo82mv"; preview := "blob:1";
                   aiTitle := None; status := processing |}
                eq_refl eq_refl eq_refl)
      as [captionText [Hnth [E _]]].
    exists captionText. split; [exact Hnth | exact E].
  - exact (proj1 (proj2 (proj2 stored_caption_is_trimmed_then_sanitized
                           captionedRun
                           {| file := jpegFile; id := "4fzyo82mv";
                              preview := "blob:1";
                              aiTitle := Some "blue-sky-over-mountains";
                              status := done |}
                           "blue-sky-over-mountains"
                           (or_introl eq_refl) eq_refl))).
Defined.

(** C2 as the specification words it fails: the text [ a] (a space, then
    [a]) is stored as [a], while the chain without the trim gives [-a]. *)
Lemma untrimmed_chain_differs :
  ~ (forall (s : App) (i text : string) (k : nat) (it : QueueItem),
       isInFlight i s = true ->
       nth_error (uploadedFiles s) k = Some it ->
       id it = i ->
       option_map aiTitle
         (nth_error
            (uploadedFiles (processFileWithAi_resolved i (Some text) s)) k)
       = Some (Some (spec_sanitize text))).
Proof.
  intros H.
  specialize (H (run pendingRun) "4fzyo82mv" " a" 0
                {| file := jpegFile; id := "4fzyo82mv"; preview := "blob:1";
                   aiTitle := None; status := processing |}
                eq_refl eq_refl eq_refl).
  vm_compute in H. discriminate H.
Qed.



(** C4, as amended.  An id is the nine characters after the first two of
    the base-36 text of a random number, and nothing compares it with the
    ids already given out.  An entry keeps the id, the file and the preview
    it was built with for as long as it is in the queue.  So in a run whose
    generated ids are pairwise distinct, any two entries ever built, kept
    or not, have different ids, and so have any two entries of the queue. *)
Theorem ids_are_distinct_when_the_random_tokens_are :
  (forall p : Picked, id (newItem p) = substr (random36 p) 2 9)
  /\ (forall (evs : list Event) (it : QueueItem),
        In it (uploadedFiles (run evs)) ->
        exists c, In c (createdItems evs)
                  /\ id c = id it /\ file c = file it
                  /\ preview c = preview it)
  /\ (forall evs : list Event,
        NoDup (generatedIds evs) ->
        (forall m n a b,
           nth_error (createdItems evs) m = Some a ->
           nth_error (createdItems evs) n = Some b ->
           m <> n -> id a <> id b)
        /\ NoDup (map id (uploadedFiles (run evs)))).
Proof.
  split; [reflexivity|]. split; [exact run_created|].
  intros evs Hnd. split.
  - intros m n a b Ha Hb Hmn E. apply Hmn.
    rewrite <- createdItems_ids in Hnd.
    apply (proj1 (NoDup_nth_error (map id (createdItems evs))) Hnd).
    + rewrite length_map. apply nth_error_Some. now rewrite Ha.
    + rewrite !nth_error_map, Ha, Hb. simpl. now rewrite E.
  - apply (ids_distinct _ _ (run_consistent evs Hnd)).
Qed.

Lemma ids_are_distinct_when_the_random_tokens_are_witness :
  NoDup (generatedIds mixedRun)
  /\ NoDup (map id (uploadedFiles (run mixedRun)))
  /\ exists c, In c (createdItems droppedRun) /\ id c = "4fzyo82mv".
Proof.
  assert (H : NoDup (generatedIds mixedRun)).
  { vm_compute. distinct_strings. }
  split; [exact H|]. split.
  - exact (proj2 (proj2 (proj2 ids_are_distinct_when_the_random_tokens_are)
                    mixedRun H)).
  - destruct (proj1 (proj2 ids_are_distinct_when_the_random_tokens_are)
                droppedRun
                {| file := jpegFile; id := "4fzyo82mv"; preview := "blob:1";
                   aiTitle := None; status := idle |}
                (or_introl eq_refl)) as [c [Hc [E _]]].
    exists c. split; [exact Hc | exact E].
Defined.

(** C4 as the specification words it fails: two files dropped together
    whose random texts agree on characters 2 to 10 get the same id. *)
Lemma two_created_items_share_an_id :
  ~ (forall (evs : list Event) (m n : nat) (a b : QueueItem),
       nth_error (createdItems evs) m = Some a ->
       nth_error (createdItems evs) n = Some b ->
       m <> n -> id a <> id b).
Proof.
  intros H.
  apply (H maskedRun 0 1
           {| file := jpegFile; id := "k3v9x1q0a"; preview := "blob:1";
              aiTitle := None; status := idle |}
           {| file := textFile; id := "k3v9x1q0a"; preview := "blob:2";
              aiTitle := None; status := idle |});
    [reflexivity | reflexivity | discriminate | reflexivity].
Qed.

(** C5, as amended.  In a run whose generated ids are pairwise distinct,
    whatever happens next, an entry that is still at its position is the
    same entry (same file, same id) and its status is either unchanged or
    has moved along idle to processing, processing to done, or processing
    to error. *)
Theorem status_moves_forward_when_ids_are_distinct :
  forall (evs : list Event) (ev : Event),
    NoDup (generatedIds evs) ->
    ForwardStep (run evs) (run (evs ++ [ev])).
Proof.
  intros evs ev Hnd. rewrite run_snoc.
  apply (step_forward (generatedIds evs)). now apply run_consistent.
Qed.

Lemma status_moves_forward_when_ids_are_distinct_witness :
  NoDup (generatedIds droppedRun)
  /\ ForwardStep (run droppedRun) (run (droppedRun ++ [EffectRuns])).
Proof.
  assert (H : NoDup (generatedIds droppedRun)).
  { vm_compute. distinct_strings. }
  split; [exact H|].
  exact (status_moves_forward_when_ids_are_distinct droppedRun EffectRuns H).
Defined.

(** C5 as the specification words it fails: when a newly dropped file gets
    the id of an entry that is already [done], the effect finds the new
    entry idle, looks its id up, and switches both to [processing]. *)
Lemma done_item_goes_back_to_processing :
  ~ (forall (evs : list Event) (ev : Event),
       ForwardStep (run evs) (run (evs ++ [ev]))).
Proof.
  intros H.
  destruct (H collidingRun EffectRuns 0
              {| file := jpegFile; id := "k3v9x1q0a"; preview := "blob:1";
                 aiTitle := Some "sky"; status := done |}
              {| file := jpegFile; id := "k3v9x1q0a"; preview := "blob:1";
                 aiTitle := Some "sky"; status := processing |}
              eq_refl eq_refl) as [_ [_ E]].
  discriminate E.
Qed.

(** C6, as amended.  In every reachable state a [done] entry has a title.
    In a run whose generated ids are pairwise distinct the converse holds
    as well: an entry has a title exactly when it is [done]. *)
Theorem title_present_iff_done_when_ids_are_distinct :
  (forall (evs : list Event) (it : QueueItem),
     In it (uploadedFiles (run evs)) ->
     status it = done -> aiTitle it <> None)
  /\ (forall (evs : list Event) (it : QueueItem),
        NoDup (generatedIds evs) ->
        In it (uploadedFiles (run evs)) ->
        (aiTitle it <> None <-> status it = done)).
Proof.
  split.
  - intros evs it Hin. apply (run_sound evs it Hin).
  - intros evs it Hnd Hin. split.
    + intros Ht.
      destruct (title_only_done _ _ (run_consistent evs Hnd) it Hin);
        [contradiction | assumption].
    + apply (run_sound evs it Hin).
Qed.

Lemma title_present_iff_done_when_ids_are_distinct_witness :
  NoDup (generatedIds captionedRun)
  /\ In {| file := jpegFile; id := "4fzyo82mv"; preview := "blob:1";
           aiTitle := Some "blue-sky-over-mountains"; status := done |}
        (uploadedFiles (run captionedRun))
  /\ (Some "blue-sky-over-mountains" <> None <-> done = done)
  /\ Some "blue-sky-over-mountains" <> None.
Proof.
  assert (H : NoDup (generatedIds captionedRun)).
  { vm_compute. distinct_strings. }
  split; [exact H|]. split; [left; reflexivity|]. split.
  - exact (proj2 title_present_iff_done_when_ids_are_distinct captionedRun
             {| file := jpegFile; id := "4fzyo82mv"; preview := "blob:1";
                aiTitle := Some "blue-sky-over-mountains"; status := done |}
             H (or_introl eq_refl)).
  - exact (proj1 title_present_iff_done_when_ids_are_distinct captionedRun
             {| file := jpegFile; id := "4fzyo82mv"; preview := "blob:1";
                aiTitle := Some "blue-sky-over-mountains"; status := done |}
             (or_introl eq_refl) eq_refl).
Defined.

(** C6 as the specification words it fails: after the collision above the
    first entry still has its title and is [processing]. *)
Lemma titled_item_is_not_done :
  ~ (forall (evs : list Event) (it : QueueItem),
       In it (uploadedFiles (run evs)) ->
       (aiTitle it <> None <-> status it = done)).
Proof.
  intros H.
  destruct (H (collidingRun ++ [EffectRuns])%list
              {| file := jpegFile; id := "k3v9x1q0a"; preview := "blob:1";
                 aiTitle := Some "sky"; status := processing |}
              (or_introl eq_refl)) as [Hdone _].
  discriminate Hdone. discriminate.
Qed.

(** C7, as amended.  A call of [processFileWithAi] on an id that no entry
    has, or whose entry holds a file that is not an image, returns the
    state unchanged: queue, settings, [isProcessing] and calls in flight.
    In a run whose generated ids are pairwise distinct an entry whose file
    is not an image is [idle] in every reachable state, is not among the
    [done] entries, and every entry of an archive carries an image. *)
Theorem caption_of_other_types_changes_nothing :
  (forall (s : App) (i : string),
     find (hasId i) (uploadedFiles s) = None
     \/ (exists item, find (hasId i) (uploadedFiles s) = Some item
                      /\ isImage (file item) = false) ->
     processFileWithAi i s = s)
  /\ (forall (evs : list Event) (it : QueueItem),
        NoDup (generatedIds evs) ->
        In it (uploadedFiles (run evs)) ->
        isImage (file it) = false ->
        status it = idle
        /\ ~ In it (finishedOf (run evs))
        /\ forall (zipOk : bool) (archiveName : string)
                  (zip : list (string * File)),
             snd (downloadRenamedFiles zipOk (run evs))
             = Download archiveName zip ->
             forall entry, In entry zip -> isImage (snd entry) = true).
Proof.
  split.
  - intros s i [Hnone|[item [Hsome Himg]]]; unfold processFileWithAi.
    + now rewrite Hnone.
    + now rewrite Hsome, Himg.
  - intros evs it Hnd Hin Himg.
    pose proof (run_consistent evs Hnd) as HC.
    assert (Hidle : status it = idle)
      by (apply (other_types_idle _ _ HC it Hin Himg)).
    split; [exact Hidle|]. split.
    + intros Hfin. apply finishedOf_In in Hfin as [_ Hdone]. congruence.
    + intros zipOk archiveName zip Hdl entry Hentry.
      unfold downloadRenamedFiles in Hdl.
      destruct (finishedOf (run evs)) as [|a l] eqn:Efin;
        [discriminate Hdl|].
      destruct zipOk; [|discriminate Hdl].
      simpl in Hdl. injection Hdl as _ <-.
      assert (Hfile : In (snd entry) (map file (a :: l))).
      { rewrite <- zipOf_data with (r := settings (run evs)).
        now apply in_map. }
      apply in_map_iff in Hfile as [item [Efile Hitem]].
      rewrite <- Efin in Hitem.
      apply finishedOf_In in Hitem as [Hitem Hdone].
      destruct (isImage (file item)) eqn:Ei; [now rewrite <- Efile|].
      rewrite (other_types_idle _ _ HC item Hitem Ei) in Hdone.
      discriminate Hdone.
Qed.

Lemma caption_of_other_types_changes_nothing_witness :
  processFileWithAi "9d2hq7w1x" (run mixedRun) = run mixedRun
  /\ NoDup (generatedIds mixedRun)
  /\ ~ In {| file := textFile; id := "9d2hq7w1x"; preview := "blob:1";
             aiTitle := None; status := idle |}
          (finishedOf (run mixedRun)).
Proof.
  assert (H : NoDup (generatedIds mixedRun)).
  { vm_compute. distinct_strings. }
  split; [|split; [exact H|]].
  - apply (proj1 caption_of_other_types_changes_nothing).
    right.
    exists {| file := textFile; id := "9d2hq7w1x"; preview := "blob:1";
              aiTitle := None; status := idle |}.
    split; reflexivity.
  - exact (proj1 (proj2 (proj2 caption_of_other_types_changes_nothing
                           mixedRun
                           {| file := textFile; id := "9d2hq7w1x";
                              preview := "blob:1"; aiTitle := None;
                              status := idle |}
                           H (or_introl eq_refl) eq_refl))).
Defined.

(** C7 as the specification words it fails: a text file that got the id of
    an image dropped with it follows the image to [done] and is written to
    the archive. *)
Lemma text_file_reaches_the_archive :
  ~ (forall (evs : list Event) (it : QueueItem),
       In it (uploadedFiles (run evs)) ->
       isImage (file it) = false ->
       status it = idle
       /\ forall (zipOk : bool) (archiveName : string)
                 (zip : list (string * File)),
            snd (downloadRenamedFiles zipOk (run evs))
            = Download archiveName zip ->
            ~ In (file it) (map snd zip)).
Proof.
  intros H.
  destruct (H maskedRun
              {| file := textFile; id := "k3v9x1q0a"; preview := "blob:2";
                 aiTitle := Some "sky"; status := done |}
              (or_intror (or_introl eq_refl)) eq_refl) as [Hidle _].
  discriminate Hidle.
Qed.

(** * Further properties of the component *)

(** ** The sanitiser, the numbers and the names *)





(** X3.  Two texts that differ only in the case of their letters get the
    same title. *)
Theorem title_ignores_letter_case :
  forall a b : string,
    toLowerCase a = toLowerCase b -> cleanTitle a = cleanTitle b.
Proof.
  intros a b H.
  rewrite <- (cleanTitle_toLowerCase a), <- (cleanTitle_toLowerCase b).
  now rewrite H.
Qed.

Lemma title_ignores_letter_case_witness :
  cleanTitle "Red CAR" = cleanTitle "red Car".
Proof.
  apply title_ignores_letter_case. reflexivity.
Defined.



(** X4.  As long as the start number is at least -2^53 and the sums
    [startNumber + index] are at most 2^53, so that no sum is rounded, two
    different indexes get different number texts: no two entries of one
    archive carry the same number. *)
Theorem entries_get_different_numbers :
  forall (r : RenameSettings) (finished : list QueueItem) (i j : nat)
         (a b : QueueItem),
    (- twoTo53 <= startNumber r)%Z ->
    (startNumber r + Z.of_nat i <= twoTo53)%Z ->
    (startNumber r + Z.of_nat j <= twoTo53)%Z ->
    nth_error finished i = Some a ->
    nth_error finished j = Some b ->
    i <> j ->
    exists na nb,
      nth_error (zipOf r finished) i
      = Some (templateOf (aiTitle a) ++ "-" ++ na ++ extOf a, file a)
      /\ nth_error (zipOf r finished) j
         = Some (templateOf (aiTitle b) ++ "-" ++ nb ++ extOf b, file b)
      /\ na <> nb.
Proof.
  intros r finished i j a b Hlo Hi Hj Ha Hb Hij.
  exists (numOf r i), (numOf r j).
  rewrite (zipOf_nth _ _ _ _ Ha), (zipOf_nth _ _ _ _ Hb).
  repeat split. intros E. now apply numOf_inj in E.
Qed.

Lemma entries_get_different_numbers_witness :
  exists na nb,
    nth_error (zipOf {| startNumber := -1; zeroPad := 1 |}
                 [dotlessItem; dotlessItem; dotlessItem]) 0
    = Some ("sky" ++ "-" ++ na ++ "scan", pngFile)
    /\ nth_error (zipOf {| startNumber := -1; zeroPad := 1 |}
                    [dotlessItem; dotlessItem; dotlessItem]) 2
       = Some ("sky" ++ "-" ++ nb ++ "scan", pngFile)
    /\ na <> nb.
Proof.
  apply (entries_get_different_numbers {| startNumber := -1; zeroPad := 1 |}
           [dotlessItem; dotlessItem; dotlessItem] 0 2 dotlessItem dotlessItem);
    try reflexivity; try (vm_compute; discriminate).
Defined.

(** Beyond that range sums are rounded and the numbers can coincide: from
    the start number 2^53 the first two entries both get
    [9007199254740992]; and from 10^21 on the text is in exponent form. *)
Example numbers_beyond_the_exact_range :
  numOf {| startNumber := twoTo53; zeroPad := 2 |} 0 = "9007199254740992"
  /\ numOf {| startNumber := twoTo53; zeroPad := 2 |} 1 = "9007199254740992"
  /\ numOf {| startNumber := twoTo53; zeroPad := 2 |} 2 = "9007199254740994"
  /\ numOf {| startNumber := 10 ^ 21; zeroPad := 2 |} 0 = "1e+21"
  /\ toString (2 ^ 64) = "18446744073709552000".
Proof. repeat split; vm_compute; reflexivity. Qed.

(** X5.  In a reachable state whose start number is not negative, in which
    [startNumber] plus the number of [done] entries is at most 2^53 and the
    name of every [done] file holds a dot, the names written to the archive
    are pairwise different, so no write takes the place of another one. *)
Theorem archive_names_are_distinct :
  forall evs : list Event,
    (0 <= startNumber (settings (run evs)))%Z ->
    (startNumber (settings (run evs))
     + Z.of_nat (List.length (finishedOf (run evs))) <= twoTo53)%Z ->
    (forall item, In item (finishedOf (run evs)) ->
       all_chars (fun d => negb (Ascii.eqb d ".")) (name (file item)) = false) ->
    NoDup (map fst (zipOf (settings (run evs)) (finishedOf (run evs)))).
Proof.
  intros evs Hstart Hsum Hdots. now apply names_written_distinct.
Qed.

Lemma archive_names_are_distinct_witness :
  (0 <= startNumber (settings (run pairRun)))%Z
  /\ List.length (zipOf (settings (run pairRun)) (finishedOf (run pairRun)))
     = 2
  /\ NoDup (map fst (zipOf (settings (run pairRun))
                       (finishedOf (run pairRun)))).
Proof.
  assert (H : (0 <= startNumber (settings (run pairRun)))%Z)
    by (vm_compute; discriminate).
  split; [exact H|]. split; [reflexivity|].
  apply (archive_names_are_distinct pairRun H).
  - vm_compute; discriminate.
  - intros item [<-|[<-|[]]]; reflexivity.
Defined.

(** X6.  For a file whose name holds a dot, the extension used in the
    archive is the last dot of the name with everything behind it: it
    starts with a dot, holds no other dot and ends the original name; and
    the name of the entry ends with it. *)
Theorem extension_is_the_last_dot_and_what_follows :
  forall (r : RenameSettings) (item : QueueItem) (index : nat),
    all_chars (fun d => negb (Ascii.eqb d ".")) (name (file item)) = false ->
    exists base ext front,
      name (file item) = base ++ extOf item
      /\ extOf item = String "." ext
      /\ all_chars (fun d => negb (Ascii.eqb d ".")) ext = true
      /\ newName r item index = front ++ String "." ext.
Proof.
  intros r item index H.
  destruct (extOf_dotted item H) as [base [ext [E [Hext Ex]]]].
  exists base, ext, (templateOf (aiTitle item) ++ "-" ++ numOf r index).
  rewrite Ex. repeat split; try assumption.
  unfold newName. now rewrite Ex, !append_assoc.
Qed.

Lemma extension_is_the_last_dot_and_what_follows_witness :
  exists base ext front,
    name (file {| file := {| name := "holiday.2024.tar.gz";
                             type := "image/png"; bytes := "b" |};
                  id := "a1"; preview := "blob:1"; aiTitle := Some "sky";
                  status := done |})
    = base ++ extOf {| file := {| name := "holiday.2024.tar.gz";
                                  type := "image/png"; bytes := "b" |};
                       id := "a1"; preview := "blob:1"; aiTitle := Some "sky";
                       status := done |}
    /\ extOf {| file := {| name := "holiday.2024.tar.gz";
                           type := "image/png"; bytes := "b" |};
                id := "a1"; preview := "blob:1"; aiTitle := Some "sky";
                status := done |} = String "." ext
    /\ all_chars (fun d => negb (Ascii.eqb d ".")) ext = true
    /\ newName {| startNumber := 1; zeroPad := 2 |}
         {| file := {| name := "holiday.2024.tar.gz";
                       type := "image/png"; bytes := "b" |};
            id := "a1"; preview := "blob:1"; aiTitle := Some "sky";
            status := done |} 0
       = front ++ String "." ext.
Proof.
  apply extension_is_the_last_dot_and_what_follows. reflexivity.
Defined.

(** X7.  The list and the archive do not count alike: the list numbers an
    entry by its position in the whole queue, the archive by its position
    among the [done] entries.  As long as the start number is at least
    -2^53 and [startNumber] plus the position at most 2^53, the name shown
    in the list for a [done] entry of a reachable queue is the name under
    which it is written to the archive exactly when every entry before it
    is [done] too. *)
Theorem shown_name_is_archive_name_iff_all_earlier_done :
  forall (evs : list Event) (k : nat) (item : QueueItem),
    (- twoTo53 <= startNumber (settings (run evs)))%Z ->
    (startNumber (settings (run evs)) + Z.of_nat k <= twoTo53)%Z ->
    nth_error (uploadedFiles (run evs)) k = Some item ->
    status item = done ->
    exists label entryName,
      previewLabel (settings (run evs)) item k = Some label
      /\ nth_error (zipOf (settings (run evs)) (finishedOf (run evs)))
           (doneBefore (run evs) k)
         = Some (entryName, file item)
      /\ (label = entryName
          <-> forall j it, j < k ->
                nth_error (uploadedFiles (run evs)) j = Some it ->
                status it = done).
Proof.
  intros evs k item Hlo Hhi Hk Hdone.
  assert (Hin : In item (uploadedFiles (run evs)))
    by now apply nth_error_In in Hk.
  destruct (run_sound evs item Hin) as [Ht _].
  destruct (aiTitle item) as [t|] eqn:Et; [|now exfalso; apply Ht].
  assert (Hp : Status_eqb (status item) done = true)
    by now apply Status_eqb_eq.
  pose proof (filter_firstn_nth (fun f => Status_eqb (status f) done)
                _ _ _ Hk Hp) as Hm.
  fold (finishedOf (run evs)) in Hm. fold (doneBefore (run evs) k) in Hm.
  assert (Hbefore : doneBefore (run evs) k <= k).
  { unfold doneBefore. etransitivity; [apply filter_length_le|].
    apply firstn_le_length. }
  exists (t ++ "-" ++ numOf (settings (run evs)) k ++ extOf item).
  exists (newName (settings (run evs)) item (doneBefore (run evs) k)).
  split; [|split].
  - unfold previewLabel. now rewrite Hp, Et.
  - now apply zipOf_nth.
  - assert (Hlen : k <= List.length (uploadedFiles (run evs))).
    { apply Nat.lt_le_incl, nth_error_Some. now rewrite Hk. }
    pose proof (filter_firstn_full
                  (fun f => Status_eqb (status f) done) _ k Hlen) as Hfull.
    fold (doneBefore (run evs) k) in Hfull.
    unfold newName. rewrite Et. cbn [templateOf]. split.
    + intros E. apply append_cancel_l, append_cancel_l, append_cancel_r,
        numOf_inj in E; [|lia|lia|lia].
      intros j it Hj Hit. apply Status_eqb_eq.
      apply (proj1 Hfull (eq_sym E) j it Hj Hit).
    + intros Hall. replace (doneBefore (run evs) k) with k; [reflexivity|].
      symmetry. apply Hfull. intros j it Hj Hit.
      apply Status_eqb_eq. now apply (Hall j it).
Qed.

Lemma shown_name_is_archive_name_iff_all_earlier_done_witness :
  exists label entryName,
    previewLabel (settings (run threeRun))
      {| file := pngFile; id := "bbbbbbbbb"; preview := "blob:2";
         aiTitle := Some "green-hills"; status := done |} 1
    = Some label
    /\ nth_error (zipOf (settings (run threeRun)) (finishedOf (run threeRun)))
         (doneBefore (run threeRun) 1)
       = Some (entryName, pngFile)
    /\ (label = entryName
        <-> forall j it, j < 1 ->
              nth_error (uploadedFiles (run threeRun)) j = Some it ->
              status it = done).
Proof.
  apply (shown_name_is_archive_name_iff_all_earlier_done threeRun 1
           {| file := pngFile; id := "bbbbbbbbb"; preview := "blob:2";
              aiTitle := Some "green-hills"; status := done |});
    try reflexivity; vm_compute; discriminate.
Defined.

(** ** More on the queue *)

Section MoreQueueFacts.

Lemma firstn_firstn_app {A : Type} (n : nat) (l l' : list A) :
  firstn n (firstn n l ++ l') = firstn n (l ++ l').
Proof.
  destruct (Nat.le_gt_cases (List.length l) n) as [H|H].
  - now rewrite (firstn_all2 l) by exact H.
  - rewrite !firstn_app, firstn_firstn, Nat.min_id, length_firstn.
    rewrite Nat.min_l by lia.
    replace (n - n) with 0 by lia. replace (n - List.length l) with 0 by lia.
    reflexivity.
Qed.

Lemma find_first {A : Type} (p : A -> bool) (l : list A) (x : A) :
  find p l = Some x ->
  exists n, nth_error l n = Some x
            /\ forall m y, m < n -> nth_error l m = Some y -> p y = false.
Proof.
  induction l as [|a l IH]; simpl; [discriminate|].
  destruct (p a) eqn:Hp.
  - intros [= <-]. exists 0. split; [reflexivity|]. intros m y Hm. lia.
  - intros H. destruct (IH H) as [n [Hn Hbefore]].
    exists (S n). split; [exact Hn|].
    intros [|m] y Hm; simpl; [now intros [= <-]|].
    apply Hbefore. lia.
Qed.

Lemma removeOne_other (i x : string) (l : list string) :
  x <> i -> In x l -> In x (removeOne i l).
Proof.
  intros Hne. induction l as [|a l IH]; simpl; [tauto|].
  destruct (String.eqb_spec a i) as [->|Ha].
  - intros [E|H]; [congruence | exact H].
  - intros [E|H]; [now left | right; auto].
Qed.

Lemma step_settings (s : App) (ev : Event) :
  settings (step s ev) = settings s
  \/ (exists parsed, ev = StartNumberTyped parsed
        /\ startNumber (settings (step s ev)) = startNumberOf parsed
        /\ zeroPad (settings (step s ev)) = zeroPad (settings s))
  \/ (exists value, ev = PaddingSelected value
        /\ startNumber (settings (step s ev)) = startNumber (settings s)
        /\ zeroPad (settings (step s ev)) = value).
Proof.
  destruct ev as [files| | |i text|i|zipOk|parsed|value]; cbn [step].
  - now left.
  - now left.
  - left. unfold useEffect.
    destruct (find _ (uploadedFiles s)); [|reflexivity].
    unfold processFileWithAi.
    destruct (find _ (uploadedFiles s)) as [item|]; [|reflexivity].
    now destruct (negb (isImage (file item))).
  - left. unfold processFileWithAi_resolved. now destruct (isInFlight i s).
  - left. unfold processFileWithAi_rejected. now destruct (isInFlight i s).
  - left. apply download_keeps.
  - right; left. now exists parsed.
  - right; right. now exists value.
Qed.

Lemma startNumberOf_nonzero (parsed : option Z) : startNumberOf parsed <> 0%Z.
Proof.
  destruct parsed as [n|]; simpl; [|discriminate].
  destruct (Z.eqb_spec (numberOf n) 0); [discriminate | assumption].
Qed.

(** When the idle entries stay the idle entries, the order is kept. *)
Lemma StartedInOrder_same_idle (s s' : App) :
  (forall k it', nth_error (uploadedFiles s') k = Some it' ->
     exists it, nth_error (uploadedFiles s) k = Some it
                /\ (status it' = idle <-> status it = idle)) ->
  StartedInOrder s -> StartedInOrder s'.
Proof.
  intros Hsame Hs j k a' b' Hjk Ha' Hb' Hb.
  destruct (Hsame j a' Ha') as [a [Ha Hia]].
  destruct (Hsame k b' Hb') as [b [Hb0 Hib]].
  intros Hidle. apply Hia in Hidle. revert Hidle.
  apply (Hs j k a b Hjk Ha Hb0). intros Hbi. apply Hb. now apply Hib.
Qed.

Lemma ended_started_in_order (used : list string) (i : string)
  (upd : QueueItem -> QueueItem) (s : App) :
  (forall f, status f = processing -> status (upd f) <> idle) ->
  Consistent used s -> In i (inFlight s) -> StartedInOrder s ->
  StartedInOrder
    (setInFlight (removeOne i (inFlight s))
       (setUploadedFiles (mapWhereId i upd) s)).
Proof.
  intros Hupd HC Hfl. apply StartedInOrder_same_idle.
  intros k it' Hk. simpl in Hk. rewrite mapWhereId_nth in Hk.
  destruct (nth_error (uploadedFiles s) k) as [it|] eqn:Hit; [|discriminate].
  simpl in Hk. injection Hk as <-. exists it. split; [reflexivity|].
  destruct (hasId i it) eqn:Hid; [|reflexivity].
  apply hasId_true in Hid. subst i.
  assert (Hst : status it = processing).
  { apply (inFlight_processing _ _ HC); [|exact Hfl].
    now apply nth_error_In in Hit. }
  split; [intros H; now apply Hupd in H | congruence].
Qed.

Lemma useEffect_started_in_order (used : list string) (s : App) :
  Consistent used s -> StartedInOrder s -> StartedInOrder (useEffect s).
Proof.
  intros HC Hs. unfold useEffect.
  destruct (find _ (uploadedFiles s)) as [idleFile|] eqn:Hfind; [|exact Hs].
  destruct (find_first _ _ _ Hfind) as [p [Hp Hbefore]].
  apply find_some in Hfind as [Hin Hidle].
  unfold processFileWithAi.
  destruct (find (hasId (id idleFile)) (uploadedFiles s)) as [item|];
    [|exact Hs].
  destruct (negb (isImage (file item))); [exact Hs|].
  intros j k a' b' Hjk Ha' Hb' Hb. simpl in Ha', Hb'.
  rewrite mapWhereId_nth in Ha', Hb'.
  destruct (nth_error (uploadedFiles s) j) as [a|] eqn:Ha; [|discriminate].
  destruct (nth_error (uploadedFiles s) k) as [b|] eqn:Hb0; [|discriminate].
  simpl in Ha', Hb'. injection Ha' as <-. injection Hb' as <-.
  assert (Ha_started : status a <> idle ->
            status (if hasId (id idleFile) a
                    then withStatus processing a else a) <> idle).
  { destruct (hasId (id idleFile) a); simpl; [discriminate | auto]. }
  destruct (hasId (id idleFile) b) eqn:Hidb.
  - apply hasId_true in Hidb.
    assert (k = p).
    { apply (proj1 (NoDup_nth_error (map id (uploadedFiles s)))
               (ids_distinct _ _ HC)).
      - rewrite length_map. apply nth_error_Some. now rewrite Hb0.
      - rewrite !nth_error_map, Hb0, Hp. simpl. now rewrite Hidb. }
    subst k. apply Ha_started. intros Hai.
    specialize (Hbefore j a Hjk Ha). rewrite Hai in Hbefore. discriminate.
  - apply Ha_started. now apply (Hs j k a b).
Qed.

Lemma addFilesToQueue_started_in_order (files : list Picked) (s : App) :
  StartedInOrder s -> StartedInOrder (addFilesToQueue files s).
Proof.
  intros Hs j k a b Hjk Ha Hb Hbi.
  rewrite addFilesToQueue_queue, nth_error_firstn in Ha, Hb.
  destruct (Nat.ltb j 200); [|discriminate].
  destruct (Nat.ltb k 200); [|discriminate].
  destruct (Nat.lt_ge_cases k (List.length (uploadedFiles s))) as [Hk|Hk].
  - rewrite nth_error_app1 in Ha, Hb by lia. now apply (Hs j k a b).
  - rewrite nth_error_app2 in Hb by exact Hk.
    apply nth_error_In, in_map_iff in Hb as [q [<- _]].
    now exfalso; apply Hbi.
Qed.

Lemma step_started_in_order (used : list string) (s : App) (ev : Event) :
  Consistent used s -> StartedInOrder s -> StartedInOrder (step s ev).
Proof.
  intros HC Hs.
  destruct ev as [files| | |i text|i|zipOk|parsed|value]; cbn [step].
  - now apply addFilesToQueue_started_in_order.
  - intros j k a b _ Ha. now destruct j.
  - now apply (useEffect_started_in_order used).
  - unfold processFileWithAi_resolved.
    destruct (isInFlight i s) eqn:Hfl; [|exact Hs].
    apply isInFlight_In in Hfl.
    apply (ended_started_in_order used); auto. discriminate.
  - unfold processFileWithAi_rejected.
    destruct (isInFlight i s) eqn:Hfl; [|exact Hs].
    apply isInFlight_In in Hfl.
    apply (ended_started_in_order used); auto. discriminate.
  - apply (StartedInOrder_same_idle s); [|exact Hs].
    intros k it' Hk. rewrite (proj1 (download_keeps zipOk s)) in Hk.
    now exists it'.
  - exact Hs.
  - exact Hs.
Qed.

Lemma run_started_in_order (evs : list Event) :
  NoDup (generatedIds evs) -> StartedInOrder (run evs).
Proof.
  induction evs as [|ev evs IH] using rev_ind; intros Hnd.
  - intros j k a b _ Ha. now destruct j.
  - rewrite run_snoc. rewrite generatedIds_snoc in Hnd.
    apply NoDup_app_left in Hnd.
    apply (step_started_in_order (generatedIds evs)); auto.
    now apply run_consistent.
Qed.

(** A [processing] entry has a call in flight. *)
Lemma step_calls_in_flight (s : App) (ev : Event) :
  (forall it, In it (uploadedFiles s) -> status it = processing ->
              In (id it) (inFlight s)) ->
  forall it, In it (uploadedFiles (step s ev)) -> status it = processing ->
             In (id it) (inFlight (step s ev)).
Proof.
  intros Hs.
  assert (Hended : forall i upd,
            (forall f, id (upd f) = id f) ->
            (forall f, status (upd f) <> processing) ->
            forall it, In it (mapWhereId i upd (uploadedFiles s)) ->
                       status it = processing ->
                       In (id it) (removeOne i (inFlight s))).
  { intros i upd Hid Hst it Hin Hproc.
    apply mapWhereId_In in Hin as [it0 [Hin [[E ->]|[E ->]]]].
    - now apply Hst in Hproc.
    - apply removeOne_other; auto. }
  destruct ev as [files| | |i text|i|zipOk|parsed|value]; cbn [step].
  - intros it Hin Hproc. rewrite addFilesToQueue_inFlight.
    rewrite addFilesToQueue_queue in Hin.
    apply In_firstn, in_app_or in Hin as [Hin|Hin]; [auto|].
    apply in_map_iff in Hin as [p [<- _]]. discriminate Hproc.
  - intros it [].
  - unfold useEffect.
    destruct (find _ (uploadedFiles s)) as [idleFile|]; [|exact Hs].
    unfold processFileWithAi.
    destruct (find _ (uploadedFiles s)) as [item|]; [|exact Hs].
    destruct (negb (isImage (file item))); [exact Hs|].
    intros it Hin Hproc. simpl in *. apply in_or_app.
    apply mapWhereId_In in Hin as [it0 [Hin [[E ->]|[E ->]]]].
    + right. left. now rewrite <- E.
    + left. auto.
  - unfold processFileWithAi_resolved.
    destruct (isInFlight i s); [|exact Hs].
    intros it Hin Hproc. simpl in *. apply (Hended i _) in Hin; auto.
    discriminate.
  - unfold processFileWithAi_rejected.
    destruct (isInFlight i s); [|exact Hs].
    intros it Hin Hproc. simpl in *. apply (Hended i _) in Hin; auto.
    discriminate.
  - destruct (download_keeps zipOk s) as [Eq [Ef _]]. rewrite Eq, Ef. exact Hs.
  - exact Hs.
  - exact Hs.
Qed.

Lemma run_calls_in_flight (evs : list Event) (it : QueueItem) :
  In it (uploadedFiles (run evs)) -> status it = processing ->
  In (id it) (inFlight (run evs)).
Proof.
  revert it. induction evs as [|ev evs IH] using rev_ind.
  - intros it [].
  - rewrite run_snoc. now apply step_calls_in_flight.
Qed.

End MoreQueueFacts.

(** X8.  Handing files over in two batches leaves the application in the
    state that handing them over in one batch gives: the cap cuts the same
    entries either way. *)
Theorem two_batches_are_one_batch :
  forall (first second : list Picked) (s : App),
    addFilesToQueue second (addFilesToQueue first s)
    = addFilesToQueue (first ++ second) s.
Proof.
  intros first second s.
  unfold addFilesToQueue, setUploadedFiles.
  cbn [settings uploadedFiles isProcessing inFlight]. f_equal.
  rewrite !slice_from_0, map_app, app_assoc. apply firstn_firstn_app.
Qed.

(** X9.  A queue that holds 200 entries takes no more: whatever files are
    handed over, the state stays as it is. *)
Theorem full_queue_takes_no_more :
  forall (files : list Picked) (s : App),
    List.length (uploadedFiles s) = 200 ->
    addFilesToQueue files s = s.
Proof.
  intros files [r q b fl] H. cbn [uploadedFiles] in H.
  unfold addFilesToQueue, setUploadedFiles.
  cbn [settings uploadedFiles isProcessing inFlight]. f_equal.
  rewrite slice_from_0, firstn_app, H, Nat.sub_diag.
  rewrite <- H, firstn_all. cbn [firstn]. apply app_nil_r.
Qed.

Lemma full_queue_takes_no_more_witness :
  List.length (uploadedFiles (run [FilesChosen manyFiles])) = 200
  /\ addFilesToQueue manyFiles (run [FilesChosen manyFiles])
     = run [FilesChosen manyFiles].
Proof.
  assert (H : List.length (uploadedFiles (run [FilesChosen manyFiles])) = 200)
    by (vm_compute; reflexivity).
  split; [exact H|].
  exact (full_queue_takes_no_more manyFiles (run [FilesChosen manyFiles]) H).
Defined.

(** X10.  The start number is never 0: it starts at 1, and a field that
    holds 0 or no number sets it to 1. *)
Theorem start_number_is_never_zero :
  forall evs : list Event, startNumber (settings (run evs)) <> 0%Z.
Proof.
  induction evs as [|ev evs IH] using rev_ind; [discriminate|].
  rewrite run_snoc.
  destruct (step_settings (run evs) ev)
    as [E|[[parsed [_ [E _]]]|[value [_ [E _]]]]]; rewrite E.
  - exact IH.
  - apply startNumberOf_nonzero.
  - exact IH.
Qed.

(** X11.  In a run whose generated ids are pairwise distinct the calls are
    started in queue order: whenever an entry is no longer idle, no entry
    before it is idle. *)
Theorem calls_are_started_in_queue_order :
  forall (evs : list Event) (j k : nat) (a b : QueueItem),
    NoDup (generatedIds evs) ->
    j < k ->
    nth_error (uploadedFiles (run evs)) j = Some a ->
    nth_error (uploadedFiles (run evs)) k = Some b ->
    status b <> idle -> status a <> idle.
Proof.
  intros evs j k a b Hnd. now apply run_started_in_order.
Qed.

Lemma calls_are_started_in_queue_order_witness :
  NoDup (generatedIds threeRun)
  /\ (done <> idle -> error <> idle).
Proof.
  assert (H : NoDup (generatedIds threeRun)).
  { vm_compute. distinct_strings. }
  split; [exact H|].
  exact (calls_are_started_in_queue_order threeRun 0 1
           {| file := jpegFile; id := "aaaaaaaaa"; preview := "blob:1";
              aiTitle := None; status := error |}
           {| file := pngFile; id := "bbbbbbbbb"; preview := "blob:2";
              aiTitle := Some "green-hills"; status := done |}
           H (le_n 1) eq_refl eq_refl).
Defined.

(** X12.  A file that is not an image blocks what comes after it: in a run
    whose generated ids are pairwise distinct, every entry behind such a
    file is idle and without title in every reachable state, and is not
    among the entries of the archive. *)
Theorem entries_behind_another_type_stay_idle :
  forall (evs : list Event) (j k : nat) (a b : QueueItem),
    NoDup (generatedIds evs) ->
    j < k ->
    nth_error (uploadedFiles (run evs)) j = Some a ->
    nth_error (uploadedFiles (run evs)) k = Some b ->
    isImage (file a) = false ->
    status b = idle /\ aiTitle b = None /\ ~ In b (finishedOf (run evs)).
Proof.
  intros evs j k a b Hnd Hjk Ha Hb Himg.
  pose proof (run_consistent evs Hnd) as HC.
  assert (Hai : status a = idle).
  { apply (other_types_idle _ _ HC); [|exact Himg].
    now apply nth_error_In in Ha. }
  assert (Hbi : status b = idle).
  { destruct (status b) eqn:Eb; [reflexivity| | |];
      exfalso; apply (run_started_in_order evs Hnd j k a b Hjk Ha Hb);
      try exact Hai; rewrite Eb; discriminate. }
  split; [exact Hbi|]. split.
  - destruct (title_only_done _ _ HC b) as [Hn|Hd];
      [now apply nth_error_In in Hb | exact Hn | congruence].
  - intros Hfin. apply finishedOf_In in Hfin as [_ Hd]. congruence.
Qed.

Lemma entries_behind_another_type_stay_idle_witness :
  NoDup (generatedIds (mixedRun ++ [EffectRuns; EffectRuns]))
  /\ nth_error (uploadedFiles (run (mixedRun ++ [EffectRuns; EffectRuns]))) 1
     = Some {| file := jpegFile; id := "k3v9x1q0a"; preview := "blob:2";
               aiTitle := None; status := idle |}
  /\ ~ In {| file := jpegFile; id := "k3v9x1q0a"; preview := "blob:2";
             aiTitle := None; status := idle |}
          (finishedOf (run (mixedRun ++ [EffectRuns; EffectRuns]))).
Proof.
  assert (H : NoDup (generatedIds (mixedRun ++ [EffectRuns; EffectRuns]))).
  { vm_compute. distinct_strings. }
  split; [exact H|]. split; [reflexivity|].
  exact (proj2 (proj2 (entries_behind_another_type_stay_idle
                         (mixedRun ++ [EffectRuns; EffectRuns]) 0 1
                         {| file := textFile; id := "9d2hq7w1x";
                            preview := "blob:1"; aiTitle := None;
                            status := idle |}
                         {| file := jpegFile; id := "k3v9x1q0a";
                            preview := "blob:2"; aiTitle := None;
                            status := idle |}
                         H (le_n 1) eq_refl eq_refl eq_refl))).
Defined.

(** X13.  No entry is [processing] without a call that will end it: in
    every reachable state the id of a [processing] entry is among the calls
    in flight.  In a run whose generated ids are pairwise distinct the
    converse holds for the entries of the queue, and an id is in flight at
    most once. *)
Theorem processing_entries_have_a_call_in_flight :
  (forall (evs : list Event) (it : QueueItem),
     In it (uploadedFiles (run evs)) ->
     status it = processing -> In (id it) (inFlight (run evs)))
  /\ (forall (evs : list Event) (it : QueueItem),
        NoDup (generatedIds evs) ->
        In it (uploadedFiles (run evs)) ->
        (status it = processing <-> In (id it) (inFlight (run evs))))
  /\ (forall evs : list Event,
        NoDup (generatedIds evs) -> NoDup (inFlight (run evs))).
Proof.
  split; [exact run_calls_in_flight|]. split.
  - intros evs it Hnd Hin. split; [now apply run_calls_in_flight|].
    now apply (inFlight_processing _ _ (run_consistent evs Hnd)).
  - intros evs Hnd. apply (inFlight_distinct _ _ (run_consistent evs Hnd)).
Qed.

Lemma processing_entries_have_a_call_in_flight_witness :
  NoDup (generatedIds pendingRun)
  /\ In "4fzyo82mv" (inFlight (run pendingRun))
  /\ NoDup (inFlight (run pendingRun)).
Proof.
  assert (H : NoDup (generatedIds pendingRun)).
  { vm_compute. distinct_strings. }
  split; [exact H|]. split.
  - exact (proj1 processing_entries_have_a_call_in_flight pendingRun
             {| file := jpegFile; id := "4fzyo82mv"; preview := "blob:1";
                aiTitle := None; status := processing |}
             (or_introl eq_refl) eq_refl).
  - exact (proj2 (proj2 processing_entries_have_a_call_in_flight)
             pendingRun H).
Defined.

(** ** The download button, the counters and the data URL *)

Section RenderFacts.

Lemma split_nonempty (sep : ascii) (s : string) : split sep s <> [].
Proof.
  induction s as [|c r IH]; simpl; [discriminate|].
  destruct (Ascii.eqb c sep); [discriminate|].
  destruct (split sep r); [contradiction | discriminate].
Qed.

(** A string without the separator is one piece. *)
Lemma split_absent (sep : ascii) (s : string) :
  all_chars (fun d => negb (Ascii.eqb d sep)) s = true -> split sep s = [s].
Proof.
  induction s as [|c r IH]; simpl; [reflexivity|].
  intros H. apply andb_true_iff in H as [Hc Hr].
  apply negb_true_iff in Hc. now rewrite Hc, IH.
Qed.

(** The first piece ends at the first separator. *)
Lemma split_first (sep : ascii) (a r : string) :
  all_chars (fun d => negb (Ascii.eqb d sep)) a = true ->
  split sep (a ++ String sep r) = a :: split sep r.
Proof.
  induction a as [|c a IH]; simpl.
  - now rewrite Ascii.eqb_refl.
  - intros H. apply andb_true_iff in H as [Hc Ha].
    apply negb_true_iff in Hc. now rewrite Hc, IH.
Qed.

(** Joining the pieces gives the string back. *)
Lemma join_split (sep : ascii) (s : string) :
  join (String sep EmptyString) (split sep s) = s.
Proof.
  induction s as [|c r IH]; simpl; [reflexivity|].
  pose proof (split_nonempty sep r) as Hn.
  destruct (Ascii.eqb c sep) eqn:Hc.
  - apply Ascii.eqb_eq in Hc. subst c.
    destruct (split sep r) as [|p ps]; [contradiction|].
    destruct ps as [|q qs]; simpl in *; now rewrite <- IH.
  - destruct (split sep r) as [|p ps]; [contradiction|].
    destruct ps as [|q qs]; simpl in *; now rewrite <- IH.
Qed.

End RenderFacts.

(** X14.  [fileToBase64] resolves with what stands between the first and
    the second comma of the data URL.  For a data URL made of a header
    without comma, a comma and a payload without comma that is the payload;
    for a result without any comma it is [undefined]. *)
Theorem data_url_payload_is_what_follows_the_comma :
  (forall header payload : string,
     all_chars (fun d => negb (Ascii.eqb d ",")) header = true ->
     all_chars (fun d => negb (Ascii.eqb d ",")) payload = true ->
     fileToBase64_onload (header ++ "," ++ payload) = Some payload)
  /\ (forall header payload rest : string,
        all_chars (fun d => negb (Ascii.eqb d ",")) header = true ->
        all_chars (fun d => negb (Ascii.eqb d ",")) payload = true ->
        fileToBase64_onload (header ++ "," ++ payload ++ "," ++ rest)
        = Some payload)
  /\ (forall result : string,
        all_chars (fun d => negb (Ascii.eqb d ",")) result = true ->
        fileToBase64_onload result = None).
Proof.
  unfold fileToBase64_onload. split; [|split].
  - intros header payload Hh Hp.
    change (header ++ "," ++ payload) with (header ++ String "," payload).
    now rewrite (split_first _ _ _ Hh), (split_absent _ _ Hp).
  - intros header payload rest Hh Hp.
    change (header ++ "," ++ payload ++ "," ++ rest)
      with (header ++ String "," (payload ++ String "," rest)).
    now rewrite (split_first _ _ _ Hh), (split_first _ _ _ Hp).
  - intros result Hr. now rewrite (split_absent _ _ Hr).
Qed.

Lemma data_url_payload_is_what_follows_the_comma_witness :
  fileToBase64_onload ("data:image/png;base64" ++ "," ++ "iVBORw0KGgo=")
  = Some "iVBORw0KGgo="
  /\ fileToBase64_onload "data:" = None.
Proof.
  split.
  - exact (proj1 data_url_payload_is_what_follows_the_comma
             "data:image/png;base64" "iVBORw0KGgo=" eq_refl eq_refl).
  - exact (proj2 (proj2 data_url_payload_is_what_follows_the_comma)
             "data:" eq_refl).
Defined.

(** X15.  While the download button is enabled the click never ends in the
    alert about missing titles: there is at least one [done] entry, so the
    click gives the archive, or the alert of the zip library when that
    fails.  And the button is disabled whenever no entry is [done]. *)
Theorem enabled_button_never_gives_the_empty_alert :
  (forall (s : App) (zipOk : bool),
     downloadDisabled s = false ->
     finishedOf s <> []
     /\ snd (downloadRenamedFiles zipOk s)
        = (if zipOk
           then Download "vision-ai-renamed.zip"
                  (zipOf (settings s) (finishedOf s))
           else Alert "Error creating ZIP."))
  /\ (forall s : App, finishedOf s = [] -> downloadDisabled s = true).
Proof.
  split.
  - intros s zipOk H. unfold downloadDisabled, processedFiles in H.
    apply orb_false_iff in H as [_ H]. apply Nat.eqb_neq in H.
    unfold downloadRenamedFiles.
    destruct (finishedOf s) as [|a l] eqn:E; [now simpl in H|].
    split; [discriminate | now destruct zipOk].
  - intros s H. unfold downloadDisabled, processedFiles. rewrite H.
    apply orb_true_r.
Qed.

Lemma enabled_button_never_gives_the_empty_alert_witness :
  downloadDisabled (run captionedRun) = false
  /\ snd (downloadRenamedFiles false (run captionedRun))
     = Alert "Error creating ZIP."
  /\ downloadDisabled (run mixedRun) = true.
Proof.
  split; [reflexivity|]. split.
  - exact (proj2 (proj1 enabled_button_never_gives_the_empty_alert
                    (run captionedRun) false eq_refl)).
  - exact (proj2 enabled_button_never_gives_the_empty_alert
             (run mixedRun) eq_refl).
Defined.

(** X16.  [downloadRenamedFiles] only reads the queue: whether it alerts,
    fails or hands out the archive, the entries, the settings and the calls
    in flight are what they were, and [isProcessing] is off afterwards
    whenever at least one entry was [done]. *)
Theorem download_leaves_queue_and_settings :
  forall (zipOk : bool) (s : App),
    uploadedFiles (fst (downloadRenamedFiles zipOk s)) = uploadedFiles s
    /\ settings (fst (downloadRenamedFiles zipOk s)) = settings s
    /\ inFlight (fst (downloadRenamedFiles zipOk s)) = inFlight s
    /\ (finishedOf s <> [] ->
        isProcessing (fst (downloadRenamedFiles zipOk s)) = false).
Proof.
  intros zipOk s. unfold downloadRenamedFiles.
  destruct (finishedOf s); simpl; repeat split; congruence.
Qed.

Lemma download_leaves_queue_and_settings_witness :
  finishedOf (run captionedRun) <> []
  /\ isProcessing (fst (downloadRenamedFiles false (run captionedRun))) = false.
Proof.
  assert (H : finishedOf (run captionedRun) <> [])
    by (vm_compute; discriminate).
  split; [exact H|].
  exact (proj2 (proj2 (proj2 (download_leaves_queue_and_settings
                                false (run captionedRun)))) H).
Defined.

(** X17.  In every reachable state the counters of the progress display
    satisfy [processedFiles <= totalFiles <= 200], and they are equal
    exactly when every entry of the queue is [done]. *)
Theorem progress_counters_are_bounded :
  forall evs : list Event,
    processedFiles (run evs) <= totalFiles (run evs)
    /\ totalFiles (run evs) <= 200
    /\ (processedFiles (run evs) = totalFiles (run evs)
        <-> forall it, In it (uploadedFiles (run evs)) -> status it = done).
Proof.
  intros evs. unfold processedFiles, totalFiles, finishedOf.
  split; [apply filter_length_le|]. split; [apply run_length|].
  generalize (uploadedFiles (run evs)) as q.
  induction q as [|a q IH]; simpl.
  - split; [intros _ it [] | reflexivity].
  - pose proof (filter_length_le (fun f => Status_eqb (status f) done) q) as Hle.
    destruct (Status_eqb (status a) done) eqn:Ha; simpl.
    + rewrite Nat.succ_inj_wd, IH. apply Status_eqb_eq in Ha. split.
      * intros H it [<-|Hin]; auto.
      * intros H it Hin. apply H. now right.
    + split; [lia|]. intros H. specialize (H a (or_introl eq_refl)).
      apply Status_eqb_eq in H. congruence.
Qed.

Lemma progress_counters_are_bounded_witness :
  processedFiles (run threeRun) = 2 /\ totalFiles (run threeRun) = 3
  /\ processedFiles (run threeRun) <= totalFiles (run threeRun).
Proof.
  split; [reflexivity|]. split; [reflexivity|].
  exact (proj1 (progress_counters_are_bounded threeRun)).
Defined.

(** ** Wiping the queue while calls are in flight *)

Section WipeFacts.

Lemma run_after_wipe (evs1 evs2 : list Event) (ev : Event) :
  run (evs1 ++ WipeAll :: (evs2 ++ [ev]))
  = step (run (evs1 ++ WipeAll :: evs2)) ev.
Proof.
  rewrite app_comm_cons, app_assoc. apply run_snoc.
Qed.

(** After a wipe the queue only holds entries built since. *)
Lemma ids_since_wipe (evs1 evs2 : list Event) (it : QueueItem) :
  In it (uploadedFiles (run (evs1 ++ WipeAll :: evs2))) ->
  In (id it) (generatedIds evs2).
Proof.
  revert it. induction evs2 as [|ev evs2 IH] using rev_ind.
  - intros it. rewrite run_snoc. intros [].
  - rewrite run_after_wipe, generatedIds_snoc.
    apply step_keeps with
      (P := fun it => In (id it) (generatedIds evs2 ++ idsOfEvent ev)).
    + intros files p -> Hp. apply in_or_app. right. simpl.
      apply in_map_iff. now exists p.
    + auto.
    + auto.
    + auto.
    + intros it Hit. apply in_or_app. left. now apply IH.
Qed.

Lemma mapWhereId_absent (i : string) (upd : QueueItem -> QueueItem)
  (q : list QueueItem) :
  (forall it, In it q -> id it <> i) -> mapWhereId i upd q = q.
Proof.
  intros H. unfold mapWhereId. rewrite <- (map_id q) at 2.
  apply map_ext_in. intros it Hit.
  now rewrite (proj2 (hasId_false i it) (H it Hit)).
Qed.

End WipeFacts.

(** X18.  Wiping the queue does not stop the calls in flight, and in a run
    whose generated ids are pairwise distinct their answers are lost: when
    a call started before the wipe resolves or rejects, whatever was
    dropped since, no entry of the queue changes. *)
Theorem answers_after_a_wipe_change_nothing :
  forall (evs1 evs2 : list Event) (i : string) (text : option string),
    NoDup (generatedIds (evs1 ++ WipeAll :: evs2)) ->
    In i (inFlight (run evs1)) ->
    In i (inFlight (run (evs1 ++ [WipeAll])))
    /\ uploadedFiles
         (processFileWithAi_resolved i text (run (evs1 ++ WipeAll :: evs2)))
       = uploadedFiles (run (evs1 ++ WipeAll :: evs2))
    /\ uploadedFiles
         (processFileWithAi_rejected i (run (evs1 ++ WipeAll :: evs2)))
       = uploadedFiles (run (evs1 ++ WipeAll :: evs2)).
Proof.
  intros evs1 evs2 i text Hnd Hfl.
  assert (Hsplit : generatedIds (evs1 ++ WipeAll :: evs2)
                   = (generatedIds evs1 ++ generatedIds evs2)%list).
  { unfold generatedIds. now rewrite flat_map_app. }
  rewrite Hsplit in Hnd.
  assert (Hused : In i (generatedIds evs1)).
  { apply (inFlight_used _ _ (run_consistent evs1 (NoDup_app_left _ _ Hnd))).
    exact Hfl. }
  assert (Hother : forall it,
            In it (uploadedFiles (run (evs1 ++ WipeAll :: evs2))) ->
            id it <> i).
  { intros it Hit E. apply ids_since_wipe in Hit. rewrite E in Hit.
    apply (NoDup_app_disjoint _ _ i Hnd Hused Hit). }
  split; [|split].
  - rewrite run_snoc. exact Hfl.
  - unfold processFileWithAi_resolved.
    destruct (isInFlight i _); [|reflexivity].
    simpl. now apply mapWhereId_absent.
  - unfold processFileWithAi_rejected.
    destruct (isInFlight i _); [|reflexivity].
    simpl. now apply mapWhereId_absent.
Qed.

Lemma answers_after_a_wipe_change_nothing_witness :
  NoDup (generatedIds wipedRun)
  /\ In "4fzyo82mv" (inFlight (run pendingRun))
  /\ uploadedFiles
       (processFileWithAi_resolved "4fzyo82mv" (Some "sky") (run wipedRun))
     = uploadedFiles (run wipedRun).
Proof.
  assert (H : NoDup (generatedIds wipedRun)).
  { vm_compute. distinct_strings. }
  split; [exact H|]. split; [left; reflexivity|].
  exact (proj1 (proj2 (answers_after_a_wipe_change_nothing pendingRun
                         [ FilesChosen
                             [ {| pickedFile := textFile;
                                  random36 := "0.9d2hq7w1xk4";
                                  objectURL := "blob:2" |} ] ]
                         "4fzyo82mv" (Some "sky") H (or_introl eq_refl)))).
Defined.
